(** * PPTAgent catalog ETL: a shallow embedding of the normalisation,
    merge, lookup, slug and upload logic, with the properties proved of it.

    Strings are ASCII byte strings ([string]); Python integers are [Z];
    dictionaries are [gmap]s or association lists where insertion order
    is observable; exceptions are an explicit [result] type. *)

From Stdlib Require Import ZArith Lia Ascii String List Bool.
From stdpp Require Import base option list strings gmap pretty.

Local Open Scope string_scope.
Local Open Scope list_scope.
Local Open Scope Z_scope.

(** Closed facts about concrete inputs are settled by evaluation. *)
Ltac by_computation := repeat apply conj; vm_compute; reflexivity.

(** ** Python runtime fragments used by the scripts *)
Module Py.

Inductive exn :=
| ValueError | OverflowError | AttributeError | KeyError | TypeError.

Inductive result (A : Type) :=
| Ok (a : A)
| Raise (e : exn).
Arguments Ok {A} a.
Arguments Raise {A} e.

#[global] Instance result_bind : MBind result := λ A B k c,
  match c with
  | Ok a => k a
  | Raise e => Raise e
  end.

#[global] Instance result_ret : MRet result := λ A a, Ok a.

#[global] Instance result_fmap : FMap result := λ A B f c,
  match c with
  | Ok a => Ok (f a)
  | Raise e => Raise e
  end.

(** A raw spreadsheet cell / Python scalar as the scripts see it:
    [None] (absent column), [NaN] (blank cell), text, or an integer. *)
Inductive cell :=
| PNone
| PNaN
| PStr (s : string)
| PInt (z : Z).

(** [pd.isna(x)] *)
Definition isna (x : cell) : bool :=
  match x with
  | PNone | PNaN => true
  | _ => false
  end.

(** [str(x)] *)
Definition str (x : cell) : string :=
  match x with
  | PNone => "None"
  | PNaN => "nan"
  | PStr s => s
  | PInt z => pretty z
  end.

(** Python truthiness of a scalar: [nan] is a non-zero float. *)
Definition truthy (x : cell) : bool :=
  match x with
  | PNone => false
  | PNaN => true
  | PStr s => negb (String.eqb s "")
  | PInt z => negb (z =? 0)
  end.

(** *** Characters *)

Definition is_space (a : ascii) : bool :=
  let n := N_of_ascii a in
  (((9 <=? n) && (n <=? 13)) || ((28 <=? n) && (n <=? 32)))%N.

Definition is_digit (a : ascii) : bool :=
  let n := N_of_ascii a in ((48 <=? n) && (n <=? 57))%N.

Definition is_upper (a : ascii) : bool :=
  let n := N_of_ascii a in ((65 <=? n) && (n <=? 90))%N.

Definition is_lower (a : ascii) : bool :=
  let n := N_of_ascii a in ((97 <=? n) && (n <=? 122))%N.

Definition lower_char (a : ascii) : ascii :=
  if is_upper a then ascii_of_N (N_of_ascii a + 32) else a.

Definition upper_char (a : ascii) : ascii :=
  if is_lower a then ascii_of_N (N_of_ascii a - 32) else a.

Definition digit_val (a : ascii) : Z := Z.of_N (N_of_ascii a) - 48.

(** *** Strings, as lists of characters *)

Definition chars (s : string) : list ascii := list_ascii_of_string s.
Definition of_chars (l : list ascii) : string := string_of_list_ascii l.

Fixpoint lstrip_chars (l : list ascii) : list ascii :=
  match l with
  | a :: t => if is_space a then lstrip_chars t else l
  | [] => []
  end.

Definition strip_chars (l : list ascii) : list ascii :=
  rev (lstrip_chars (rev (lstrip_chars l))).

(** [s.strip()], [s.lower()], [s.upper()] *)
Definition strip (s : string) : string := of_chars (strip_chars (chars s)).
Definition lower (s : string) : string := of_chars (map lower_char (chars s)).
Definition upper (s : string) : string := of_chars (map upper_char (chars s)).

(** [s.replace(c, "")] for a one-character [c] *)
Definition remove_char (c : ascii) (s : string) : string :=
  of_chars (filter (fun a => a ≠ c) (chars s)).

(** [s in {...}] *)
Definition str_in (s : string) (l : list string) : bool :=
  existsb (String.eqb s) l.

(** Splitting on every character of a class: [s.split(",")] and
    [re.split(r"[\/,;]", s)]. The result is never empty. *)
Fixpoint split_chars (sep : ascii -> bool) (cur : list ascii) (l : list ascii)
  : list (list ascii) :=
  match l with
  | [] => [rev cur]
  | a :: t =>
      if sep a then rev cur :: split_chars sep [] t
      else split_chars sep (a :: cur) t
  end.

Definition split_on (sep : ascii -> bool) (s : string) : list string :=
  map of_chars (split_chars sep [] (chars s)).

(** Value of a run of decimal digits, most significant first. *)
Fixpoint digits_val (acc : Z) (l : list ascii) : Z :=
  match l with
  | [] => acc
  | a :: t => digits_val (10 * acc + digit_val a) t
  end.

(** *** [int(s)] on text: optional surrounding whitespace, optional sign,
    decimal digits with single underscores allowed between digits. *)

(** digitpart ::= digit (["_"] digit)*; returns the digits read and the
    unread rest, or [None] when the input does not start with a digit. *)
Fixpoint digitpart_more (acc : list ascii) (l : list ascii)
  : list ascii * list ascii :=
  match l with
  | a :: t =>
      if is_digit a then digitpart_more (a :: acc) t
      else if (a =? "_")%char then
        match t with
        | b :: t' =>
            if is_digit b then digitpart_more (b :: acc) t' else (rev acc, l)
        | [] => (rev acc, l)
        end
      else (rev acc, l)
  | [] => (rev acc, [])
  end.

Definition digitpart (l : list ascii) : option (list ascii * list ascii) :=
  match l with
  | a :: t => if is_digit a then Some (digitpart_more [a] t) else None
  | [] => None
  end.

Definition take_sign (l : list ascii) : bool * list ascii :=
  match l with
  | a :: t =>
      if (a =? "-")%char then (true, t)
      else if (a =? "+")%char then (false, t)
      else (false, l)
  | [] => (false, [])
  end.

Definition apply_sign (neg : bool) (z : Z) : Z := if neg then - z else z.

Definition py_int (s : string) : result Z :=
  let (neg, body) := take_sign (strip_chars (chars s)) in
  match digitpart body with
  | Some (ds, []) => Ok (apply_sign neg (digits_val 0 ds))
  | _ => Raise ValueError
  end.

(** [int(x)] on a scalar *)
Definition int_of_cell (x : cell) : result Z :=
  match x with
  | PNone => Raise TypeError
  | PNaN => Raise ValueError
  | PStr s => py_int s
  | PInt z => Ok z
  end.

(** *** [float(s)] and [int(float)]: IEEE binary64, round to nearest even.

    A finite double is kept as the exact value [m * 2^e] with [0 <= m]. *)
Inductive pyfloat :=
| FInf (neg : bool)
| FNan
| FFin (neg : bool) (m : Z) (e : Z).

(** [p / q >= 2^k] for positive [p], [q]. *)
Definition ge_pow2 (p q k : Z) : bool :=
  if 0 <=? k then q * 2 ^ k <=? p else q <=? p * 2 ^ (- k).

(** The double nearest to the positive rational [p / q]. *)
Definition round_binary64 (neg : bool) (p q : Z) : pyfloat :=
  if p =? 0 then FFin neg 0 0 else
  let k0 := Z.log2 p - Z.log2 q in
  let k := if ge_pow2 p q k0 then k0 else k0 - 1 in
  let e := Z.max (k - 52) (-1074) in
  let n := if 0 <=? e then p else p * 2 ^ (- e) in
  let d := if 0 <=? e then q * 2 ^ e else q in
  let fl := n / d in
  let r2 := 2 * (n mod d) in
  let m := if r2 <? d then fl
           else if d <? r2 then fl + 1
           else if Z.odd fl then fl + 1 else fl in
  if (0 <=? e) && (2 ^ 1024 <=? m * 2 ^ e) then FInf neg else FFin neg m e.

(** The value [m * 10^e10] of a decimal literal, rounded. *)
Definition decimal_to_float (neg : bool) (m e10 : Z) : pyfloat :=
  if 0 <=? e10 then round_binary64 neg (m * 10 ^ e10) 1
  else round_binary64 neg m (10 ^ (- e10)).

(** exponent ::= ("e" | "E") [sign] digitpart, then end of input *)
Definition float_exponent (l : list ascii) : option Z :=
  match l with
  | [] => Some 0
  | a :: t =>
      if (lower_char a =? "e")%char then
        let (neg, t') := take_sign t in
        match digitpart t' with
        | Some (ds, []) => Some (apply_sign neg (digits_val 0 ds))
        | _ => None
        end
      else None
  end.

(** number ::= [digitpart] "." digitpart | digitpart ["."] *)
Definition float_number (neg : bool) (l : list ascii) : option pyfloat :=
  let '(ip, rest) :=
    match digitpart l with
    | Some (ds, r) => (ds, r)
    | None => ([], l)
    end in
  let '(fp, rest', ok) :=
    match rest with
    | a :: t =>
        if (a =? ".")%char then
          match digitpart t with
          | Some (ds, r) => (ds, r, true)
          | None => ([], t, negb (length ip =? 0)%nat)
          end
        else ([], rest, negb (length ip =? 0)%nat)
    | [] => ([], [], negb (length ip =? 0)%nat)
    end in
  if ok then
    match float_exponent rest' with
    | Some ex =>
        Some (decimal_to_float neg (digits_val 0 (ip ++ fp))
                (ex - Z.of_nat (length fp)))
    | None => None
    end
  else None.

Definition py_float (s : string) : result pyfloat :=
  let (neg, body) := take_sign (strip_chars (chars s)) in
  let word := of_chars (map lower_char body) in
  if str_in word ["inf"; "infinity"] then Ok (FInf neg)
  else if String.eqb word "nan" then Ok FNan
  else match float_number neg body with
       | Some f => Ok f
       | None => Raise ValueError
       end.

(** [int(f)]: truncation toward zero *)
Definition int_of_float (f : pyfloat) : result Z :=
  match f with
  | FInf _ => Raise OverflowError
  | FNan => Raise ValueError
  | FFin neg m e =>
      Ok (apply_sign neg (if 0 <=? e then m * 2 ^ e else m / 2 ^ (- e)))
  end.

End Py.

(** ** Regular expressions, as far as the alias table uses them.

    [re.search(p, s, flags=re.IGNORECASE)] only asks whether a match
    exists, so a pattern denotes its language; matching is by derivatives. *)
Module Re.
Import Py.

Inductive regex :=
| Eps
| Chr (c : ascii)
| Cls (p : ascii -> bool)
| Cat (r s : regex)
| Alt (r s : regex)
| Star (r : regex).

(** A pattern with its anchors: [^body$], [^body], [body]. *)
Record pattern := Pattern {
  at_start : bool;
  body : regex;
  at_end : bool
}.

Fixpoint nullable (r : regex) : bool :=
  match r with
  | Eps => true
  | Chr _ | Cls _ => false
  | Cat r s => nullable r && nullable s
  | Alt r s => nullable r || nullable s
  | Star _ => true
  end.

(** Under IGNORECASE a literal matches either case of itself. *)
Fixpoint deriv (a : ascii) (r : regex) : option regex :=
  match r with
  | Eps => None
  | Chr c => if (lower_char a =? lower_char c)%char then Some Eps else None
  | Cls p => if p a then Some Eps else None
  | Cat r s =>
      let left := (λ r', Cat r' s) <$> deriv a r in
      if nullable r then
        match left, deriv a s with
        | Some x, Some y => Some (Alt x y)
        | Some x, None => Some x
        | None, o => o
        end
      else left
  | Alt r s =>
      match deriv a r, deriv a s with
      | Some x, Some y => Some (Alt x y)
      | Some x, None => Some x
      | None, o => o
      end
  | Star r => (λ r', Cat r' (Star r)) <$> deriv a r
  end.

Fixpoint matches (r : regex) (l : list ascii) : bool :=
  match l with
  | [] => nullable r
  | a :: t =>
      match deriv a r with
      | Some r' => matches r' t
      | None => false
      end
  end.

Definition any : regex := Star (Cls (λ _, true)).

(** [$] without MULTILINE: the end, or just before a final newline. *)
Definition dollar : regex := Alt Eps (Chr "010").

Definition search (p : pattern) (s : string) : bool :=
  matches
    (Cat (if at_start p then Eps else any)
       (Cat (body p) (if at_end p then dollar else any)))
    (chars s).

(** Pattern syntax *)
Fixpoint lit_chars (l : list ascii) : regex :=
  match l with
  | [] => Eps
  | [c] => Chr c
  | c :: t => Cat (Chr c) (lit_chars t)
  end.

Definition lit (s : string) : regex := lit_chars (chars s).
Definition opt (r : regex) : regex := Alt r Eps.
(** [\s*] *)
Definition ws : regex := Star (Cls is_space).

Fixpoint seq (rs : list regex) : regex :=
  match rs with
  | [] => Eps
  | [r] => r
  | r :: t => Cat r (seq t)
  end.

(** [^...$], [^...] and unanchored patterns *)
Definition whole (rs : list regex) : pattern := Pattern true (seq rs) true.
Definition prefix (rs : list regex) : pattern := Pattern true (seq rs) false.
Definition inside (rs : list regex) : pattern := Pattern false (seq rs) false.

End Re.

(** ** src/excel_to_products.py (the same header and value parsers are
    repeated verbatim in src/excel_to_products_enriched.py) *)
Module ExcelToProducts.
Import Py Re.

(** [ALIASES], in dictionary order; each pattern is given with its source
    text. *)
Definition ALIASES : list (string * list pattern) := [
  ("reference", [
     whole [lit "id.1"];                                 (* ^id\.1$ *)
     whole [lit "id"];                                   (* ^id$ *)
     whole [lit "ref"; opt (lit "erence");
            opt (Cat ws (lit "string"))];    (* ^ref(erence)?(\s*string)?$ *)
     whole [lit "product"; ws; lit "id"]                 (* ^product\s*id$ *)
   ]);
  ("category_name", [
     whole [lit "product"; opt (lit "s"); opt (lit "'"); ws;
            lit "category"];                  (* ^products?'?\s*category$ *)
     whole [lit "category"; opt (Cat ws (lit "name"))]   (* ^category(\s*name)?$ *)
   ]);
  ("product_name", [
     whole [lit "product"; opt (lit "s")];               (* ^products?$ *)
     whole [lit "product"; ws; lit "name"];              (* ^product\s*name$ *)
     whole [lit "item"]                                  (* ^item$ *)
   ]);
  ("size", [
     whole [lit "size"; opt (lit "s")];                  (* ^sizes?$ *)
     whole [lit "variant"];                              (* ^variant$ *)
     whole [lit "model"]                                 (* ^model$ *)
   ]);
  ("picture", [
     whole [lit "picture"]; whole [lit "image"]; whole [lit "photo"]
   ]);
  ("ce", [ whole [lit "ce"] ]);
  ("ce_mdr", [
     whole [lit "ce";
            Star (Cls (λ a, (a =? "_")%char || is_space a || (a =? "-")%char));
            lit "mdr"]                                   (* ^ce[_\s-]*mdr$ *)
   ]);
  ("fda", [ whole [lit "fda"] ]);
  ("iso", [
     whole [lit "iso"; ws; lit "st"; ws; lit "/"; ws;
            lit "ard"];                           (* ^iso\s*st\s*/\s*ard$ *)
     prefix [lit "iso"];                                 (* ^iso *)
     whole [lit "standard"; opt (lit "s")]               (* ^standard(s)?$ *)
   ]);
  ("pcs_inner", [
     whole [lit "pcs"; opt (lit "/"); ws; lit "inner"; ws; lit "pack";
            opt (lit "aging")];        (* ^pcs/?\s*inner\s*pack(aging)?$ *)
     whole [lit "inner"; ws;
            Alt (lit "pcs") (lit "qty")]                 (* ^inner\s*(pcs|qty)$ *)
   ]);
  ("pcs_outer", [
     whole [lit "pcs"; opt (lit "/"); ws; lit "outer"; ws; lit "pack";
            opt (lit "aging")];        (* ^pcs/?\s*outer\s*pack(aging)?$ *)
     whole [lit "outer"; ws;
            Alt (lit "pcs") (lit "qty")];                (* ^outer\s*(pcs|qty)$ *)
     whole [lit "carton"; ws; lit "qty"]                 (* ^carton\s*qty$ *)
   ]);
  ("loading_20gp", [
     whole [lit "loading"; ws; lit "capacity"];          (* ^loading\s*capacity$ *)
     inside [lit "20"; ws; lit "gp"];                    (* 20\s*gp *)
     whole [lit "20gp"]                                  (* ^20gp$ *)
   ]);
  ("loading_40hc", [
     whole [lit "unnamed:"; ws; lit "16"];               (* ^unnamed:\s*16$ *)
     inside [lit "40"; ws; lit "hc"];                    (* 40\s*hc *)
     whole [lit "40hc"]                                  (* ^40hc$ *)
   ]);
  ("carton_size", [
     whole [lit "carton"; ws; lit "size"];               (* ^carton\s*size$ *)
     whole [lit "ctn"; ws; lit "size"];                  (* ^ctn\s*size$ *)
     whole [lit "box"; ws; lit "size"]                   (* ^box\s*size$ *)
   ])
].

(** [re.sub(r"\s+", " ", ...)]: every run of whitespace becomes one space. *)
Fixpoint collapse_ws (in_run : bool) (l : list ascii) : list ascii :=
  match l with
  | [] => []
  | a :: t =>
      if is_space a then
        if in_run then collapse_ws true t else " "%char :: collapse_ws true t
      else a :: collapse_ws false t
  end.

Definition normalize_header (h : string) : string :=
  lower (strip (of_chars (collapse_ws false (chars h)))).

(** The two nested [for] loops of [match_header]: the first entry, in
    table order, one of whose patterns is found in the normalised header. *)
Fixpoint match_in (table : list (string * list pattern)) (norm : string)
  : option string :=
  match table with
  | [] => None
  | (canon, pats) :: rest =>
      if existsb (λ p, search p norm) pats then Some canon
      else match_in rest norm
  end.

Definition match_header (name : string) : option string :=
  match_in ALIASES (normalize_header name).

(** *** Header renaming in [main]

    [rename] is an insertion-ordered dict from raw header to canonical name. *)
Abbreviation rename_map := (list (string * string)).

(** [d[k] = v] *)
Fixpoint dict_set (d : rename_map) (k v : string) : rename_map :=
  match d with
  | [] => [(k, v)]
  | (k', v') :: t =>
      if String.eqb k' k then (k', v) :: t else (k', v') :: dict_set t k v
  end.

(** [[k for k, v in rename.items() if v == canon]] *)
Definition keys_of (d : rename_map) (canon : string) : list string :=
  map fst (filter (λ kv, kv.2 = canon) d).

(** One iteration of [for c in df.columns]. *)
Definition rename_step (rename : rename_map) (c : string) : rename_map :=
  match match_header c with
  | Some canon =>
      match keys_of rename canon with
      | existing_col :: _ =>
          if (String.length existing_col <? String.length c)%nat
             || String.eqb c "ID.1"
          then dict_set (filter (λ kv, kv.2 ≠ canon) rename) c canon
          else rename
      | [] => dict_set rename c canon
      end
  | None => rename
  end.

Definition build_rename (columns : list string) : rename_map :=
  foldl rename_step [] columns.

(** *** Value parsers *)

Definition yesno_to_bool (x : cell) : bool :=
  if isna x then false else
  let s := lower (strip (str x)) in
  if str_in s ["yes"; "y"; "true"; "1"] then true
  else if str_in s ["n/a"; "na"; "no"; "false"; "0"; "-"; ""] then false
  else false.

(** [DIGITS.findall(s)] for [DIGITS = re.compile(r"[0-9]+")]: the maximal
    runs of digits, left to right. *)
Fixpoint digit_runs (cur : list ascii) (l : list ascii) : list (list ascii) :=
  let flush := match cur with [] => [] | _ => [rev cur] end in
  match l with
  | [] => flush
  | a :: t =>
      if is_digit a then digit_runs (a :: cur) t
      else flush ++ digit_runs [] t
  end.

Definition DIGITS_findall (s : string) : list string :=
  map of_chars (digit_runs [] (chars s)).

(** [int(float(s))] *)
Definition int_float (s : string) : result Z :=
  f ← py_float s; int_of_float f.

(** [s.replace("'","").replace(",","").replace(" ","")] *)
Definition unseparate (s : string) : string :=
  remove_char " " (remove_char "," (remove_char "'" s)).

Definition parse_int (x : cell) : result (option Z) :=
  if isna x then Ok None else
  let s := lower (strip (str x)) in
  if str_in s [""; "n/a"; "na"; "-"] then Ok None else
  let s := unseparate s in
  match int_float s with
  | Ok n => Ok (Some n)
  | Raise _ =>
      let digits := String.concat "" (DIGITS_findall s) in
      if String.eqb digits "" then Ok None
      else n ← py_int digits; Ok (Some n)
  end.

Definition parse_iso_list (x : cell) : list string :=
  if isna x then [] else
  let s := strip (str x) in
  if String.eqb s "" || str_in (lower s) ["n/a"; "na"; "-"] then [] else
  let parts :=
    split_on (λ a, (a =? "/")%char || (a =? ",")%char || (a =? ";")%char) s in
  map strip (filter (λ p, strip p ≠ "") parts).

Record variation := Variation {
  size : string;
  picture : bool;
  ce : bool;
  ce_mdr : bool;
  fda : bool;
  iso : list string;
  pcs_inner : option Z;
  pcs_outer : option Z;
  loading_20GP : option Z;
  loading_40HC : option Z;
  carton_size : string
}.

(** A row as a dict; [r.get(k)] is [None] for an absent key. *)
Definition row_get (r : gmap string cell) (k : string) : cell :=
  default PNone (r !! k).

(** [x or ""] *)
Definition or_empty (x : cell) : cell := if truthy x then x else PStr "".

(** [(x).strip()] is a method of [str] only. *)
Definition strip_method (x : cell) : result string :=
  match x with
  | PStr s => Ok (strip s)
  | _ => Raise AttributeError
  end.

Definition build_variation (r : gmap string cell) : result variation :=
  sz ← strip_method (or_empty (row_get r "size"));
  let pic := yesno_to_bool (row_get r "picture") in
  let c := yesno_to_bool (row_get r "ce") in
  let cm := yesno_to_bool (row_get r "ce_mdr") in
  let fd := yesno_to_bool (row_get r "fda") in
  let isos := parse_iso_list (row_get r "iso") in
  pin ← parse_int (row_get r "pcs_inner");
  pout ← parse_int (row_get r "pcs_outer");
  l20 ← parse_int (row_get r "loading_20gp");
  l40 ← parse_int (row_get r "loading_40hc");
  cs ← strip_method (or_empty (row_get r "carton_size"));
  Ok (Variation sz pic c cm fd isos pin pout l20 l40 cs).

(** *** Forward fill, size filter and grouping in [main]
    (run without [--only-ref] and [--limit-variations]) *)

(** The data frame after [df.rename]: its column labels and its rows, each
    row holding one cell per column. *)
Record frame := Frame {
  columns : list string;
  rows : list (gmap string cell)
}.

(** [df[col] = df[col].ffill()]: a missing cell takes the last value that
    was not missing, when there is one. *)
Fixpoint ffill (col : string) (last : option cell) (rs : list (gmap string cell))
  : list (gmap string cell) :=
  match rs with
  | [] => []
  | r :: t =>
      if isna (row_get r col) then
        match last with
        | Some w => <[col := w]> r :: ffill col last t
        | None => r :: ffill col None t
        end
      else r :: ffill col (Some (row_get r col)) t
  end.

Definition has_column (df : frame) (col : string) : bool :=
  str_in col (columns df).

Definition forward_fill (df : frame) : frame :=
  foldl (λ d col,
           if has_column d col then Frame (columns d) (ffill col None (rows d))
           else d)
        df ["reference"; "product_name"; "category_name"].

(** [df["size"].astype(str).str.strip().ne("")] *)
Definition size_mask (r : gmap string cell) : bool :=
  negb (String.eqb (strip (str (row_get r "size"))) "").

Definition keep_sized (df : frame) : frame :=
  if has_column df "size" then Frame (columns df) (filter size_mask (rows df))
  else df.

Record packaging := Packaging {
  packing_per_inner_box : Z;
  inner_boxes_per_carton : Z;
  loading_capacity_20GP : Z;
  loading_capacity_40HC : Z;
  additional_notes : string
}.

Record parent := Parent {
  name : string;
  referenceString : string;
  category : option Z;
  categoryName : string;
  divisions : list Z;
  divisionNames : list string;
  standard : string;
  description : string;
  tableInMd : string;
  images : list Z;
  PackagingInformation : packaging;
  variations : list variation
}.

(** The record built from [DEFAULT_PARENT] for a reference seen first. *)
Definition new_parent (prod_name ref cat_name : string) : parent :=
  Parent prod_name ref None cat_name [] [] "" "" "" []
    (Packaging 0 0 0 0 "Not specified") [].

(** [products] is an insertion-ordered dict keyed by reference. *)
Definition has_ref (products : list (string * parent)) (ref : string) : bool :=
  existsb (λ kp, String.eqb kp.1 ref) products.

(** [products[ref]["data"]["variations"].append(v)] *)
Fixpoint append_variation (products : list (string * parent)) (ref : string)
    (v : variation) : list (string * parent) :=
  match products with
  | [] => []
  | (k, p) :: t =>
      if String.eqb k ref then
        (k, Parent (name p) (referenceString p) (category p) (categoryName p)
              (divisions p) (divisionNames p) (standard p) (description p)
              (tableInMd p) (images p) (PackagingInformation p)
              (variations p ++ [v])) :: t
      else (k, p) :: append_variation t ref v
  end.

(** [str(r.get(col) or "").strip()] *)
Definition text_of (r : gmap string cell) (col : string) : string :=
  strip (str (or_empty (row_get r col))).

(** One iteration of [for _, r in df.iterrows()]. *)
Definition group_step (products : list (string * parent))
    (r : gmap string cell) : result (list (string * parent)) :=
  let ref := text_of r "reference" in
  if String.eqb ref "" then Ok products else
  let cat_name := text_of r "category_name" in
  let prod_name := text_of r "product_name" in
  let products :=
    if has_ref products ref then products
    else (products ++ [(ref, new_parent prod_name ref cat_name)])%list in
  v ← build_variation r;
  Ok (append_variation products ref v).

Fixpoint group_rows (products : list (string * parent))
    (rs : list (gmap string cell)) : result (list (string * parent)) :=
  match rs with
  | [] => Ok products
  | r :: t => products' ← group_step products r; group_rows products' t
  end.

(** Lines 125-174 of [main]: the [products] dict after the loop. *)
Definition build_products (df : frame) : result (list (string * parent)) :=
  group_rows [] (rows (keep_sized (forward_fill df))).

End ExcelToProducts.

(** ** JSON-shaped Python objects on a heap.

    Dicts and lists are objects with identity: a value refers to them by
    location, so that copies, sharing and in-place updates are visible. *)
Module Obj.
Import Py.

Inductive value :=
| VNone
| VBool (b : bool)
| VInt (z : Z)
| VStr (s : string)
| VRef (l : positive).

Inductive object :=
| ODict (d : gmap string value)
| OList (l : list value).

#[global] Instance value_eq_dec : EqDecision value.
Proof. solve_decision. Defined.

(** Truthiness: [None], [False], [0], [""], [[]] and [{}] are falsy. *)
Definition truthy (h : gmap positive object) (v : value) : bool :=
  match v with
  | VNone => false
  | VBool b => b
  | VInt z => negb (z =? 0)
  | VStr s => negb (String.eqb s "")
  | VRef l =>
      match h !! l with
      | Some (ODict d) => negb (bool_decide (dom d = ∅))
      | Some (OList []) => false
      | Some (OList (_ :: _)) => true
      | None => true
      end
  end.

(** [d.get(k)] *)
Definition get (d : gmap string value) (k : string) : value :=
  default VNone (d !! k).

(** The dict a value denotes; [.get] and [.copy] exist on dicts only. *)
Definition as_dict (h : gmap positive object) (v : value)
  : result (gmap string value) :=
  match v with
  | VRef l =>
      match h !! l with
      | Some (ODict d) => Ok d
      | _ => Raise AttributeError
      end
  | _ => Raise AttributeError
  end.

(** [isinstance(v, dict)] *)
Definition is_dict (h : gmap positive object) (v : value) : bool :=
  match v with
  | VRef l => match h !! l with Some (ODict _) => true | _ => false end
  | _ => false
  end.

(** Every reference stored in an object of the heap points into the heap. *)
Definition value_ok (h : gmap positive object) (v : value) : Prop :=
  match v with
  | VRef l => is_Some (h !! l)
  | _ => True
  end.

#[global] Instance value_ok_dec h v : Decision (value_ok h v).
Proof. destruct v; simpl; apply _. Defined.

Definition object_ok (h : gmap positive object) (o : object) : Prop :=
  match o with
  | ODict d => map_Forall (λ _ v, value_ok h v) d
  | OList vs => Forall (value_ok h) vs
  end.

#[global] Instance object_ok_dec h o : Decision (object_ok h o).
Proof. destruct o; simpl; apply _. Defined.

Definition closed (h : gmap positive object) : Prop :=
  map_Forall (λ _ o, object_ok h o) h.

#[global] Instance closed_dec h : Decision (closed h).
Proof. unfold closed. apply _. Defined.

End Obj.

(** ** src/core/slides_to_json_merger.py *)
Module SlidesToJsonMerger.
Import Py Obj.

Definition fields_to_merge : list string :=
  ["standard"; "description"; "tableInMd"; "PackagingInformation"; "images"].

(** The body of [for field in fields_to_merge], on the heap [h]:
    [excel_product] and [merged] are the locations of the two dicts. *)
Definition merge_field (excel_product merged : positive) (slide_data : value)
    (h : gmap positive object) (field : string)
  : result (gmap positive object) :=
  ed ← as_dict h (VRef excel_product);
  let excel_value := get ed field in
  sd ← as_dict h slide_data;
  let slide_value := get sd field in
  if negb (truthy h excel_value) && truthy h slide_value then
    md ← as_dict h (VRef merged);
    Ok (<[merged := ODict (<[field := slide_value]> md)]> h)
  else Ok h.

Fixpoint merge_fields (excel_product merged : positive) (slide_data : value)
    (h : gmap positive object) (fields : list string)
  : result (gmap positive object) :=
  match fields with
  | [] => Ok h
  | field :: rest =>
      h' ← merge_field excel_product merged slide_data h field;
      merge_fields excel_product merged slide_data h' rest
  end.

(** [merge_slide_data(slide_payload, excel_product)]: returns the heap after
    the call and the location of the new dict [merged_product]. *)
Definition merge_slide_data (h : gmap positive object)
    (slide_payload excel_product : positive)
  : result (gmap positive object * positive) :=
  ed ← as_dict h (VRef excel_product);
  let merged := fresh (dom h) in
  let h1 := <[merged := ODict ed]> h in
  pd ← as_dict h1 (VRef slide_payload);
  slide_data ← match pd !! "data" with
               | Some v => Ok v
               | None => Raise KeyError
               end;
  h2 ← merge_fields excel_product merged slide_data h1 fields_to_merge;
  Ok (h2, merged).

Definition required_fields : list string :=
  ["standard"; "description"; "tableInMd"; "PackagingInformation"; "images"].

(** [any(v for v in value.values() if v and v != "Not specified")] *)
Definition meaningful (h : gmap positive object) (d : gmap string value) : bool :=
  existsb (λ kv, truthy h kv.2 && negb (bool_decide (kv.2 = VStr "Not specified"))
                 && truthy h kv.2)
          (map_to_list d).

Definition is_missing (h : gmap positive object) (pd : gmap string value)
    (field : string) : bool :=
  let value := get pd field in
  if negb (truthy h value) then true
  else if String.eqb field "PackagingInformation" && is_dict h value then
    match as_dict h value with
    | Ok d => negb (meaningful h d)
    | Raise _ => false
    end
  else false.

Definition check_completeness (h : gmap positive object) (product : positive)
  : result (list string) :=
  pd ← as_dict h (VRef product);
  Ok (filter (λ field, is_missing h pd field = true) required_fields).

End SlidesToJsonMerger.

(** ** src/core/slug_builder.py *)
Module SlugBuilder.
Import Py Obj.

(** [\w] on ASCII text *)
Definition is_word (a : ascii) : bool :=
  is_lower a || is_upper a || is_digit a || (a =? "_")%char.

Definition is_hyphen (a : ascii) : bool := (a =? "-")%char.

(** [re.sub(r'[-\s]+', '-', text)] *)
Fixpoint hyphenate (in_run : bool) (l : list ascii) : list ascii :=
  match l with
  | [] => []
  | a :: t =>
      if is_hyphen a || is_space a then
        if in_run then hyphenate true t else "-"%char :: hyphenate true t
      else a :: hyphenate false t
  end.

Fixpoint lstrip_hyphens (l : list ascii) : list ascii :=
  match l with
  | a :: t => if is_hyphen a then lstrip_hyphens t else l
  | [] => []
  end.

(** [slugify]; NFD normalisation leaves ASCII text as it is. *)
Definition slugify (text : string) : string :=
  if String.eqb text "" then "" else
  let t := map lower_char (chars text) in
  let t := filter (λ a, is_word a || is_space a || is_hyphen a = true) t in
  let t := hyphenate false t in
  of_chars (rev (lstrip_hyphens (rev (lstrip_hyphens t)))).

(** [f"{base_slug}-{counter}"] *)
Definition numbered (base_slug : string) (counter : nat) : string :=
  base_slug +:+ "-" +:+ pretty counter.

(** The [while slug in existing_slugs] loop; [fuel] bounds the number of
    further iterations, [None] means it ran out. *)
Fixpoint unique_loop (fuel : nat) (base_slug : string)
    (existing_slugs : gset string) (slug : string) (counter : nat)
  : option string :=
  if decide (slug ∈ existing_slugs) then
    match fuel with
    | O => None
    | S fuel' =>
        unique_loop fuel' base_slug existing_slugs
          (numbered base_slug counter) (counter + 1)
    end
  else Some slug.

Definition generate_unique_slug (name : string) (existing_slugs : gset string)
  : option string :=
  let base_slug := slugify name in
  let base_slug := if String.eqb base_slug "" then "product" else base_slug in
  unique_loop (size existing_slugs) base_slug existing_slugs base_slug 1.

(** A catalog entry [{"data": {...}}]: its [data] dict, [None] when the
    entry has no such key. Names are text, as the catalog format has them. *)
Abbreviation product := (option (gmap string value)).










End SlugBuilder.

(** ** src/core/excel_to_json_custom.py *)
Module ExcelToJsonCustom.
Import Py.

(** The hardcoded [category_mapping] literal. *)
Definition category_mapping : list (string * Z) := [
  ("SYRINGES", 59); ("NEEDLES", 60); ("SCALP VEIN SETS", 61);
  ("BLOOD LANCETS", 62); ("INFUSION SETS", 63); ("INFUSION ACCESORIES", 64);
  ("TRANSFUSION SETS", 65); ("EXTENSION TUBES", 66); ("IV CANNULAS", 67);
  ("GLOVES", 68); ("CONDOMS", 69); ("ADHESIVE TAPES & DRESSINGS", 70);
  ("GAUZE", 71); ("DISPOSABLE NON-WOVEN GOURMENTS", 72);
  ("URINARY CATHETERS", 73); ("HEMODIALYSIS CATHETERS", 74);
  ("SUCTION CATHETER", 75); ("ENTERAL FEEDING TUBES", 76);
  ("BLOOD EXTRACTION", 77); ("CENTRAL VENOUS CATHETERS (CVC)", 78);
  ("ELECTRODES", 79); ("ENDOBRONCHEAL TUBES", 80);
  ("ENDOTRACHEAL TUBES", 81); ("LARYNGEAL MASKS", 82);
  ("NASA OXYGEN CANNULA", 83); ("NASOPHARINGEAL AIRWAYS", 84);
  ("PHARINGEAL AIRWAYS", 85); ("PRESSURE TRANSDUCERS", 86);
  ("RESPIRATORY CIRCUITS", 87); ("RESPIRATORY MASKS", 88);
  ("STOMACH TUBES", 89); ("SUCTION TUBE + JANKAUER HANDLE", 90);
  ("TRACHEOSTOMY", 91); ("URINE BAGS", 92);
  ("DISPOSABLE NON-WOVEN OPERATION ROOMS", 93)
].

(** [d.get(k)] on a literal dict *)
Fixpoint assoc {A} (d : list (string * A)) (k : string) : option A :=
  match d with
  | [] => None
  | (k', v) :: t => if String.eqb k' k then Some v else assoc t k
  end.

(** The [for cat_id, cat_name in categories_map.items()] loop: the id of
    the first entry, in the order of the mapping file, whose name equals
    the wanted one up to case. *)
Fixpoint find_by_name (categories_map : list (string * string))
    (category_name : string) : option string :=
  match categories_map with
  | [] => None
  | (cat_id, cat_name) :: t =>
      if String.eqb (upper cat_name) (upper category_name) then Some cat_id
      else find_by_name t category_name
  end.

Definition map_category_to_id (category_name : string)
    (categories_map : list (string * string)) : result (Z * bool) :=
  match find_by_name categories_map category_name with
  | Some cat_id => n ← py_int cat_id; Ok (n, true)
  | None =>
      let category_id := default 59 (assoc category_mapping (upper category_name)) in
      Ok (category_id, false)
  end.

(** The [hardcoded_divisions] literal of [parse_divisions]. *)
Definition hardcoded_divisions : list (string * Z) := [
  ("INJECTION", 48); ("DIABETES CARE", 49); ("INFUSION", 47);
  ("DIAGNOSTIC", 50); ("PROTECTION", 56); ("WOUND MANAGEMENT", 54);
  ("UROLOGY", 53); ("ANESTHESIA / RESPIRATORY", 58); ("NUTRITION", 52);
  ("HEMODIALYSIS", 51)
].

(** [division and str(division).strip()] for a text cell *)
Definition nonblank (division : string) : bool :=
  negb (String.eqb division "") && negb (String.eqb (strip division) "").

(** One round of [for division in [division1, division2, division3]]:
    the ids and the unresolved names collected so far, extended. *)
Definition division_step (divisions_map : list (string * string))
    (acc : list Z * list string) (division : string)
  : result (list Z * list string) :=
  if nonblank division then
    match find_by_name divisions_map division with
    | Some div_id => n ← py_int div_id; Ok (acc.1 ++ [n], acc.2)
    | None =>
        match assoc hardcoded_divisions (upper division) with
        | Some div_id =>
            if div_id =? 0 then Ok (acc.1, acc.2 ++ [division])
            else Ok (acc.1 ++ [div_id], acc.2)
        | None => Ok (acc.1, acc.2 ++ [division])
        end
    end
  else Ok acc.

Fixpoint division_loop (divisions_map : list (string * string))
    (acc : list Z * list string) (cells : list string)
  : result (list Z * list string) :=
  match cells with
  | [] => Ok acc
  | division :: rest =>
      acc' ← division_step divisions_map acc division;
      division_loop divisions_map acc' rest
  end.

Definition parse_divisions (division1 division2 division3 : string)
    (divisions_map : list (string * string)) : result (list Z * list string) :=
  division_loop divisions_map ([], []) [division1; division2; division3].

Record validation_info := ValidationInfo {
  has_category : bool;
  has_divisions : bool;
  missing_category_id : option string;
  missing_division_ids : list string;
  row_index : option Z
}.

Record packaging := Packaging {
  packing_per_inner_box : Z;
  inner_boxes_per_carton : Z;
  loading_capacity_20GP : Z;
  loading_capacity_40HC : Z;
  additional_notes : string
}.

Record product := Product {
  name : string;
  referenceString : string;
  category : Z;
  categoryName : string;
  divisions : list Z;
  divisionNames : list string;
  standard : string;
  description : string;
  tableInMd : string;
  images : list Z;
  PackagingInformation : packaging
}.

(** [str(row[k]) if pd.notna(row[k]) else ""]; [row[k]] raises on a
    column the sheet does not have. *)
Definition text_cell (row : gmap string cell) (k : string) : result string :=
  match row !! k with
  | Some c => Ok (if isna c then "" else str c)
  | None => Raise KeyError
  end.

(** [not s or s == "nan"] *)
Definition blank_or_nan (s : string) : bool :=
  String.eqb s "" || String.eqb s "nan".

(** [divisions_map.get(str(div_id), f"Division {div_id}")] *)
Definition division_name (divisions_map : list (string * string)) (div_id : Z)
  : string :=
  default ("Division " +:+ pretty div_id) (assoc divisions_map (pretty div_id)).

Definition convert_row_to_strapi_format (row : gmap string cell)
    (categories_map divisions_map : list (string * string))
  : result (option product * validation_info) :=
  category_name ← text_cell row "PRODUCTS' CATEGORY";
  reference_string ← text_cell row "Reference";
  product_name ← text_cell row "PRODUCTS";
  division1 ← text_cell row "Division";
  division2 ← text_cell row "Division.1";
  division3 ← text_cell row "Division.2";
  if blank_or_nan reference_string || blank_or_nan product_name then
    Ok (None, ValidationInfo false false None [] None)
  else
    match map_category_to_id category_name categories_map with
    | Raise e => Raise e
    | Ok (category_id_int, category_found) =>
        let category_name_from_map :=
          if category_found
          then default category_name
                 (assoc categories_map (pretty category_id_int))
          else category_name in
        match parse_divisions division1 division2 division3 divisions_map with
        | Raise e => Raise e
        | Ok (division_ids, missing_division_ids) =>
            Ok (Some (Product product_name reference_string category_id_int
                        category_name_from_map division_ids
                        (map (division_name divisions_map) division_ids)
                        "???" "" "" [] (Packaging 0 0 0 0 "Not specified")),
                ValidationInfo category_found (0 <? length division_ids)%nat
                  (if category_found then None else Some category_name)
                  missing_division_ids None)
        end
    end.

End ExcelToJsonCustom.

(** ** The HTTP layer under src/utils/strapi.py and
    src/uploaders/batch_upload_products.py.

    The remote side is a parameter: [env n] is what the [n]-th request of
    the run meets, a transport failure or a response. The state threaded
    through the clients is the log of the requests made so far. *)
Module Http.

(** What [response.json()] holds, as far as the clients read it: the body
    may fail to parse, may lack ["data"], and the data may lack ["id"]. *)
Inductive body :=
| NotJson
| NoData
| Data (id : option Z).

Record response := Response {
  status_code : Z;
  json : body
}.

Inductive outcome :=
| TransportError
| Responds (r : response).

Record call := Call {
  method : string;
  url : string;
  timeout : option Z
}.

(** One [requests.request(...)]: logged, and answered by the environment. *)
Definition request (env : nat → outcome) (log : list call) (c : call)
  : outcome * list call :=
  (env (length log), (log ++ [c])%list).

(** [bool(response)] is [response.ok]: no 4xx or 5xx status. *)
Definition ok (r : response) : bool :=
  negb ((400 <=? status_code r) && (status_code r <? 600)).

Definition status_in (r : response) (codes : list Z) : bool :=
  existsb (Z.eqb (status_code r)) codes.

End Http.

(** ** src/utils/strapi.py *)
Module Strapi.
Import Py Http.

Definition TIMEOUT : Z := 5.
Definition MAX_RETRIES : nat := 3.

(** The [for attempt in range(MAX_RETRIES)] loop with [left] attempts to
    go; a response of any status is returned at once. *)
Fixpoint attempts (left : nat) (env : nat → outcome) (log : list call)
    (c : call) : option response * list call :=
  match left with
  | O => (None, log)
  | S left' =>
      match request env log c with
      | (Responds r, log') => (Some r, log')
      | (TransportError, log') =>
          match left' with
          | O => (None, log')
          | S _ => attempts left' env log' c
          end
      end
  end.

(** [_make_request(method, url, **kwargs)]; [timeout_kw] is the caller's
    [timeout=] keyword, [None] when it passes none. *)
Definition _make_request (env : nat → outcome) (log : list call)
    (method url : string) (timeout_kw : option (option Z))
  : option response * list call :=
  let timeout := default (Some TIMEOUT) timeout_kw in
  attempts MAX_RETRIES env log (Call method url timeout).

(** [result["data"]] *)
Definition data_of (r : response) : result (option Z) :=
  match json r with
  | NotJson => Raise ValueError
  | NoData => Raise KeyError
  | Data id => Ok id
  end.

Definition BASE : string := "/api/medical-products".

(** [upsert_product(payload, existing)]; [existing] is the id of the
    product found earlier, if any. The value returned is [result["data"]]. *)
Definition upsert_product (env : nat → outcome) (log : list call)
    (existing : option Z) : result (option (option Z)) * list call :=
  match existing with
  | Some product_id =>
      let (response, log') :=
        _make_request env log "PUT" (BASE +:+ "/" +:+ pretty product_id) None in
      match response with
      | Some r =>
          if ok r && status_in r [200; 201]
          then (d ← data_of r; Ok (Some d), log')
          else (Ok None, log')
      | None => (Ok None, log')
      end
  | None =>
      let (response, log') := _make_request env log "POST" BASE None in
      match response with
      | Some r =>
          if ok r && status_in r [200; 201]
          then (d ← data_of r;
                match d with
                | Some _ => Ok (Some d)
                | None => Raise KeyError
                end, log')
          else (Ok None, log')
      | None => (Ok None, log')
      end
  end.

Definition delete_product (env : nat → outcome) (log : list call)
    (product_id : Z) : bool * list call :=
  let (response, log') :=
    _make_request env log "DELETE" (BASE +:+ "/" +:+ pretty product_id) None in
  match response with
  | Some r => (ok r && status_in r [200; 204], log')
  | None => (false, log')
  end.

End Strapi.

(** ** src/uploaders/batch_upload_products.py *)
Module BatchUploader.
Import Py Http.

Definition PRODUCTION_URL : string :=
  "https://adminpanel.lets-med.com/api/medical-products".

(** The dict [upload_single_product] returns. *)
Inductive upload_result :=
| Uploaded (product_id : Z)
| HttpFailure (status : Z)
| NetworkError.


(** One [requests.post(PRODUCTION_URL, json=product, headers=headers)]
    inside [try ... except Exception]. *)
Definition upload_single_product (env : nat → outcome) (log : list call)
  : upload_result * list call :=
  match request env log (Call "POST" PRODUCTION_URL None) with
  | (Responds r, log') =>
      if status_in r [200; 201] then
        match json r with
        | Data (Some product_id) => (Uploaded product_id, log')
        | _ => (NetworkError, log')
        end
      else (HttpFailure (status_code r), log')
  | (TransportError, log') => (NetworkError, log')
  end.

(** A product of products.json: the dict under its ["data"] key, [None]
    when it has none. *)
Abbreviation payload := (option (gmap string Obj.value)).









End BatchUploader.

(** ** src/core/excel_to_json.py *)
Module ExcelToJson.
Import Py.

(** [row.get(k, '')] *)
Definition row_get (row : gmap string cell) (k : string) : cell :=
  default (PStr "") (row !! k).

Fixpoint ints (parts : list string) : result (list Z) :=
  match parts with
  | [] => Ok []
  | x :: t => n ← py_int (strip x); ns ← ints t; Ok (n :: ns)
  end.

Definition parse_divisions (divisions_str : cell) : list Z :=
  if isna divisions_str || negb (truthy divisions_str) then [] else
  let parts :=
    filter (λ x, strip x ≠ "")
           (split_on (λ a, (a =? ",")%char) (str divisions_str)) in
  match ints parts with
  | Ok ids => ids
  | Raise _ => []
  end.

(** [get_division_names]: the names found and the ids not found. *)
Fixpoint get_division_names (division_ids : list Z)
    (divisions_map : gmap string string) : list string * list Z :=
  match division_ids with
  | [] => ([], [])
  | div_id :: rest =>
      let (names, missing_ids) := get_division_names rest divisions_map in
      match divisions_map !! pretty div_id with
      | Some nm => (nm :: names, missing_ids)
      | None => (names, div_id :: missing_ids)
      end
  end.

Record validation_info := ValidationInfo {
  has_category : bool;
  has_divisions : bool;
  missing_category_id : option cell;
  missing_division_ids : list Z;
  row_index : option Z
}.

Record packaging := Packaging {
  packing_per_inner_box : Z;
  inner_boxes_per_carton : Z;
  loading_capacity_20GP : Z;
  loading_capacity_40HC : Z;
  additional_notes : string
}.

Record product := Product {
  name : string;
  referenceString : string;
  standard : string;
  description : string;
  tableInMd : string;
  category : option Z;
  categoryName : string;
  divisions : list Z;
  divisionNames : list string;
  images : list Z;
  PackagingInformation : packaging
}.

Definition process_row (row : gmap string cell)
    (categories_map divisions_map : gmap string string)
  : option product * validation_info :=
  let division_ids := parse_divisions (row_get row "divisions") in
  let (division_names, missing_division_ids) :=
    get_division_names division_ids divisions_map in
  let category_id := row_get row "category" in
  let found :=
    if truthy category_id then categories_map !! str category_id else None in
  let info :=
    ValidationInfo
      (bool_decide (is_Some found))
      (0 <? length division_ids)%nat
      (if truthy category_id && negb (bool_decide (is_Some found))
       then Some category_id else None)
      missing_division_ids
      None in
  match found, missing_division_ids with
  | Some category_name, [] =>
      (* [int(category_id) if category_id else None], inside the [try] *)
      match int_of_cell category_id with
      | Ok n =>
          (Some (Product (str (row_get row "name"))
                   (str (row_get row "referenceString"))
                   (str (row_get row "standard"))
                   (str (row_get row "description"))
                   (str (row_get row "tableInMd"))
                   (Some n) category_name division_ids division_names []
                   (Packaging 0 0 0 0 "Not specified")),
           info)
      | Raise _ => (None, info)
      end
  | _, _ => (None, info)
  end.

(** The row loop of [main]: the products appended to the output. *)
Definition emitted (rows : list (gmap string cell))
    (categories_map divisions_map : gmap string string) : list product :=
  omap (λ row, (process_row row categories_map divisions_map).1) rows.

End ExcelToJson.

(** ** Readings taken from the specification's wording, to be compared
    with what the code computes *)
Module Spec.
Import Py ExcelToProducts.


End Spec.

(** * Properties *)

(** ** Value parsers *)
Section ParseInt.
Import Py ExcelToProducts.

Lemma chars_of_chars l : chars (of_chars l) = l.
Proof. apply list_ascii_of_string_of_list_ascii. Qed.

Lemma str_app_cons a (s t : string) : String a s +:+ t = String a (s +:+ t).
Proof. reflexivity. Qed.


Lemma str_app_length (s t : string) :
  String.length (s +:+ t) = (String.length s + String.length t)%nat.
Proof.
  induction s as [|a s IH]; [done |]. rewrite str_app_cons. simpl.
  by rewrite IH.
Qed.











End ParseInt.

Section ParseIntClaims.
Import Py ExcelToProducts.




End ParseIntClaims.

(** ** Header normaliser *)
Section Headers.
Import Py Re ExcelToProducts.

(** No pattern of any entry of [table] is found in [norm]. *)
Definition no_match (table : list (string * list pattern)) (norm : string) : Prop :=
  ∀ canon pats p, (canon, pats) ∈ table → p ∈ pats → search p norm = false.

Lemma existsb_false_elem {A} (f : A → bool) (l : list A) x :
  existsb f l = false → x ∈ l → f x = false.
Proof.
  intros H Hx. induction Hx as [x l|x y l _ IH]; simpl in H;
    apply orb_false_iff in H as [H1 H2]; [done | by apply IH].
Qed.

Lemma existsb_true_elem {A} (f : A → bool) (l : list A) :
  existsb f l = true → ∃ x, x ∈ l ∧ f x = true.
Proof.
  intros H. apply existsb_exists in H as (x & Hin & Hx).
  exists x. split; [by apply list_elem_of_In | done].
Qed.

(** [match_in] returns the first entry, in table order, with a pattern
    that matches, and [None] exactly when no pattern of the table matches. *)
Lemma match_in_first table norm :
  match match_in table norm with
  | Some canon =>
      ∃ before pats after p,
        table = before ++ (canon, pats) :: after
        ∧ p ∈ pats ∧ search p norm = true
        ∧ no_match before norm
  | None => no_match table norm
  end.
Proof.
  induction table as [|[canon pats] rest IH]; simpl.
  - intros ? ? ? H. by apply elem_of_nil in H.
  - destruct (existsb (λ p, search p norm) pats) eqn:E.
    + apply existsb_true_elem in E as (p & Hp & Hs).
      exists [], pats, rest, p. repeat split; try done.
      intros ? ? ? H. by apply elem_of_nil in H.
    + destruct (match_in rest norm) as [c|].
      * destruct IH as (before & ps & after & p & -> & Hp & Hs & Hno).
        exists ((canon, pats) :: before), ps, after, p. repeat split; try done.
        intros c' ps' p' Hin Hp'. apply elem_of_cons in Hin as [[= -> ->]|Hin].
        -- by eapply (existsb_false_elem (λ p, search p norm)).
        -- by eapply Hno.
      * intros c' ps' p' Hin Hp'. apply elem_of_cons in Hin as [[= -> ->]|Hin].
        -- by eapply (existsb_false_elem (λ p, search p norm)).
        -- by eapply IH.
Qed.

Lemma keys_of_cons k v d canon :
  keys_of ((k, v) :: d) canon
  = if decide (v = canon) then k :: keys_of d canon else keys_of d canon.
Proof.
  unfold keys_of. rewrite filter_cons. simpl.
  by destruct (decide (v = canon)).
Qed.

Lemma keys_of_filtered d canon :
  keys_of (filter (λ kv, kv.2 ≠ canon) d) canon = [].
Proof.
  induction d as [|[k v] d IH]; [done |].
  destruct (decide (v = canon)) as [->|Hne].
  - by rewrite filter_cons_False by (simpl; tauto).
  - rewrite filter_cons_True by done. rewrite keys_of_cons.
    by destruct (decide (v = canon)).
Qed.

(** Setting [d[c] = canon] in a dict where nothing maps to [canon] leaves
    [c] as the only header mapped to it. *)
Lemma keys_of_dict_set d c canon :
  keys_of d canon = [] → keys_of (dict_set d c canon) canon = [c].
Proof.
  induction d as [|[k v] d IH]; intros H; simpl.
  - rewrite keys_of_cons. by destruct (decide (canon = canon)).
  - rewrite keys_of_cons in H. destruct (decide (v = canon)) as [|Hne]; [done |].
    destruct (String.eqb_spec k c) as [->|_]; rewrite keys_of_cons.
    + rewrite H. by destruct (decide (canon = canon)).
    + destruct (decide (v = canon)); [done | by apply IH].
Qed.

(** One step of the renaming loop, when [c] competes with the header
    [existing_col] that currently holds its canonical name. *)
Lemma rename_step_compete rename c canon existing_col others :
  match_header c = Some canon →
  keys_of rename canon = existing_col :: others →
  keys_of (rename_step rename c) canon
  = if (String.length existing_col <? String.length c)%nat || String.eqb c "ID.1"
    then [c] else existing_col :: others.
Proof.
  intros Hm Hk. unfold rename_step. rewrite Hm, Hk.
  destruct (_ || _); [| done].
  apply keys_of_dict_set, keys_of_filtered.
Qed.

Lemma rename_step_first rename c canon :
  match_header c = Some canon →
  keys_of rename canon = [] →
  keys_of (rename_step rename c) canon = [c].
Proof.
  intros Hm Hk. unfold rename_step. rewrite Hm, Hk.
  by apply keys_of_dict_set.
Qed.

(** C7 (as stated, refuted): the headers ["Model"] and ["Sizes"] both match
    [size] and have the same length; the one retained is ["Model"], which is
    neither the longer of the two nor ["ID.1"]. *)
Lemma rename_tie_keeps_first :
  match_header "Model" = Some "size"
  ∧ match_header "Sizes" = Some "size"
  ∧ String.length "Model" = String.length "Sizes"
  ∧ String.eqb "Model" "ID.1" = false
  ∧ build_rename ["Model"; "Sizes"] = [("Model", "size")].
Proof. by_computation. Qed.

(** C7 (amended): [match_header] is a function of the header alone: it
    returns the canonical name of the first entry of [ALIASES], in table
    order, one of whose patterns is found in the normalised header, and
    [None] exactly when no pattern of the table is found. When a later header
    [c] competes with the header currently retained for the same canonical
    name, [c] replaces it if [c] is strictly longer or is exactly ["ID.1"];
    otherwise, equal lengths included, the earlier header stays. *)
Theorem match_header_first_and_rename_policy :
  (∀ name : string,
     match match_header name with
     | Some canon =>
         ∃ before pats after p,
           ALIASES = before ++ (canon, pats) :: after
           ∧ p ∈ pats ∧ search p (normalize_header name) = true
           ∧ no_match before (normalize_header name)
     | None => no_match ALIASES (normalize_header name)
     end)
  ∧ (∀ rename c canon existing_col others,
       match_header c = Some canon →
       keys_of rename canon = existing_col :: others →
       keys_of (rename_step rename c) canon
       = if (String.length existing_col <? String.length c)%nat
            || String.eqb c "ID.1"
         then [c] else existing_col :: others)
  ∧ (∀ a b canon,
       match_header a = Some canon → match_header b = Some canon →
       keys_of (build_rename [a; b]) canon
       = if (String.length a <? String.length b)%nat || String.eqb b "ID.1"
         then [b] else [a])
  ∧ build_rename ["ID"; "ID.1"] = [("ID.1", "reference")]
  ∧ build_rename ["Reference"; "ID.1"] = [("ID.1", "reference")]
  ∧ build_rename ["ID.1"; "ID"] = [("ID.1", "reference")]
  ∧ match_header "Batch No" = None.
Proof.
  split; [intros name; apply match_in_first |].
  split; [intros; by apply rename_step_compete |].
  split; [| by_computation].
  intros a b canon Ha Hb. unfold build_rename. simpl.
  apply rename_step_compete; [done |].
  by apply rename_step_first.
Qed.

End Headers.

(** ** Row grouper *)
Section RowGrouper.
Import Py ExcelToProducts.

(** A row of a sheet with the two columns [reference] and [size]. *)
Definition ref_size_row (ref sz : cell) : gmap string cell :=
  <["reference" := ref]> (<["size" := sz]> ∅).

Definition ref_size_frame (rs : list (cell * cell)) : frame :=
  Frame ["reference"; "size"] (map (λ p, ref_size_row p.1 p.2) rs).

(** The references and, for each, the sizes of its variations. *)
Definition summary (products : list (string * parent))
  : list (string * list string) :=
  map (λ kp, (kp.1, map size (variations kp.2))) products.

(** The worked example of the specification: the blank reference of the
    second row is filled from the first, and two products come out. *)
Lemma group_example :
  summary <$>
    build_products
      (ref_size_frame [(PStr "1.1", PStr "S"); (PNaN, PStr "M");
                       (PStr "1.2", PStr "L")])
  = Ok [("1.1", ["S"; "M"]); ("1.2", ["L"])].
Proof. vm_compute. reflexivity. Qed.

(** A row whose size is text made of blanks only is dropped. *)
Lemma blank_text_size_dropped :
  summary <$>
    build_products (ref_size_frame [(PStr "1.1", PStr "S"); (PNaN, PStr "  ")])
  = Ok [("1.1", ["S"])].
Proof. vm_compute. reflexivity. Qed.


End RowGrouper.

(** ** Product merger *)
Section Merger.
Import Py Obj SlidesToJsonMerger.

Lemma fresh_unused (h : gmap positive object) : h !! fresh (dom h) = None.
Proof. apply not_elem_of_dom, is_fresh. Qed.

Lemma bind_ok {A B} (c : result A) (k : A → result B) b :
  c ≫= k = Ok b → ∃ a, c = Ok a ∧ k a = Ok b.
Proof. destruct c as [a|e]; [by exists a | done]. Qed.

Lemma as_dict_ok h v d :
  as_dict h v = Ok d → ∃ l, v = VRef l ∧ h !! l = Some (ODict d).
Proof.
  destruct v as [| | | |l]; try done. simpl.
  destruct (h !! l) as [[d'|]|] eqn:E; try done.
  intros [= ->]. by exists l.
Qed.

Lemma as_dict_ref h l d : h !! l = Some (ODict d) → as_dict h (VRef l) = Ok d.
Proof. intros H. simpl. by rewrite H. Qed.

(** The loop writes to the new dict only, and only at the fields it is
    given; no other object of the heap changes. *)
Lemma merge_fields_frame ep m slv (h : gmap positive object) fs md h2 :
  merge_fields ep m slv (<[m := ODict md]> h) fs = Ok h2 →
  ∃ md', h2 = <[m := ODict md']> h ∧ ∀ k, k ∉ fs → md' !! k = md !! k.
Proof.
  revert md. induction fs as [|f fs IH]; intros md H; simpl in H.
  - injection H as <-. by exists md.
  - apply bind_ok in H as (h1 & Hstep & Hrest).
    unfold merge_field in Hstep.
    apply bind_ok in Hstep as (ed & _ & Hstep).
    apply bind_ok in Hstep as (sd & _ & Hstep).
    destruct (negb _ && _).
    + apply bind_ok in Hstep as (md0 & Hmd & Hstep).
      rewrite (as_dict_ref _ m md) in Hmd by apply lookup_insert_eq.
      injection Hmd as <-. injection Hstep as <-.
      rewrite insert_insert_eq in Hrest.
      apply IH in Hrest as (md' & -> & Hk). exists md'. split; [done |].
      intros k Hnot. apply not_elem_of_cons in Hnot as [Hne Hnot].
      rewrite Hk by done. by rewrite lookup_insert_ne.
    + injection Hstep as <-.
      apply IH in Hrest as (md' & -> & Hk). exists md'. split; [done |].
      intros k Hnot. apply not_elem_of_cons in Hnot as [_ Hnot]. by apply Hk.
Qed.

Lemma truthy_insert (h : gmap positive object) m o v :
  h !! m = None → value_ok h v → truthy (<[m := o]> h) v = truthy h v.
Proof.
  intros Hm Hv. destruct v as [| | | |l]; try done. simpl in *.
  rewrite lookup_insert_ne; [done |]. intros ->. rewrite Hm in Hv.
  by destruct Hv.
Qed.

Lemma get_ok (h : gmap positive object) d k :
  (∀ k v, d !! k = Some v → value_ok h v) → value_ok h (get d k).
Proof.
  intros H. unfold get. destruct (d !! k) eqn:E; simpl; [by eapply H | done].
Qed.

(** What the loop leaves in the new dict, field by field. *)
Lemma merge_fields_spec ep m sl (h : gmap positive object) ed sd fs md :
  h !! m = None →
  h !! ep = Some (ODict ed) →
  h !! sl = Some (ODict sd) →
  (∀ k v, ed !! k = Some v → value_ok h v) →
  (∀ k v, sd !! k = Some v → value_ok h v) →
  ∃ md',
    merge_fields ep m (VRef sl) (<[m := ODict md]> h) fs
    = Ok (<[m := ODict md']> h)
    ∧ ∀ f, md' !! f
           = if bool_decide (f ∈ fs)
                && (negb (truthy h (get ed f)) && truthy h (get sd f))
             then Some (get sd f) else md !! f.
Proof.
  intros Hm Hep Hsl Hed Hsd. revert md.
  assert (Hepm : m ≠ ep) by (intros ->; congruence).
  assert (Hslm : m ≠ sl) by (intros ->; congruence).
  induction fs as [|f fs IH]; intros md.
  - exists md. split; [done |]. intros f.
    by rewrite bool_decide_eq_false_2 by apply not_elem_of_nil.
  - simpl. unfold merge_field at 1.
    rewrite (as_dict_ref _ ep ed) by (by rewrite lookup_insert_ne).
    rewrite (as_dict_ref _ sl sd) by (by rewrite lookup_insert_ne).
    simpl. rewrite !truthy_insert by (done || by apply get_ok).
    assert (Hcons : ∀ f', f' ≠ f →
              bool_decide (f' ∈ f :: fs) = bool_decide (f' ∈ fs)).
    { intros f' Hne. apply bool_decide_ext. rewrite elem_of_cons. tauto. }
    destruct (negb (truthy h (get ed f)) && truthy h (get sd f)) eqn:Ec.
    + rewrite lookup_insert_eq. simpl. rewrite insert_insert_eq.
      destruct (IH (<[f := get sd f]> md)) as (md' & Hrun & Hk).
      exists md'. split; [exact Hrun |]. intros f'. rewrite Hk.
      destruct (decide (f' = f)) as [->|Hne].
      * rewrite (bool_decide_eq_true_2 (f ∈ f :: fs)) by apply list_elem_of_here.
        rewrite lookup_insert_eq, Ec. simpl.
        by destruct (bool_decide (f ∈ fs)).
      * by rewrite lookup_insert_ne, Hcons.
    + destruct (IH md) as (md' & Hrun & Hk).
      exists md'. split; [exact Hrun |]. intros f'. rewrite Hk.
      destruct (decide (f' = f)) as [->|Hne].
      * rewrite Ec, !andb_false_r. done.
      * by rewrite Hcons.
Qed.

(** The dicts a call of [merge_slide_data] reads: the spreadsheet record at
    [ep], and the dict under ["data"] of the payload at [sp]. *)
Definition inputs (h : gmap positive object) (sp ep : positive)
    (ed sd : gmap string value) : Prop :=
  h !! ep = Some (ODict ed)
  ∧ ∃ pd sl, h !! sp = Some (ODict pd) ∧ pd !! "data" = Some (VRef sl)
             ∧ h !! sl = Some (ODict sd).

(** On a closed heap with well-shaped inputs the merge returns, and the new
    dict is the spreadsheet record with each mergeable field replaced by the
    slide's value exactly when the former is falsy and the latter truthy. *)
Lemma merge_slide_data_spec h sp ep ed sd :
  closed h → inputs h sp ep ed sd →
  ∃ md,
    merge_slide_data h sp ep = Ok (<[fresh (dom h) := ODict md]> h, fresh (dom h))
    ∧ ∀ f, md !! f
           = if bool_decide (f ∈ fields_to_merge)
                && (negb (truthy h (get ed f)) && truthy h (get sd f))
             then Some (get sd f) else ed !! f.
Proof.
  intros Hc (Hep & pd & sl & Hsp & Hdata & Hsl).
  pose proof (fresh_unused h) as Hm.
  assert (fresh (dom h) ≠ sp) by (intros E; rewrite E in Hm; congruence).
  destruct (merge_fields_spec ep (fresh (dom h)) sl h ed sd fields_to_merge ed)
    as (md & Hrun & Hk); try done.
  { intros k v Hv. by apply (Hc ep (ODict ed) Hep k v). }
  { intros k v Hv. by apply (Hc sl (ODict sd) Hsl k v). }
  exists md. split; [| done]. unfold merge_slide_data.
  rewrite (as_dict_ref _ ep ed) by done.
  change (Ok ed ≫= ?k) with (k ed). cbv beta zeta.
  rewrite (as_dict_ref _ sp pd) by (by rewrite lookup_insert_ne).
  change (Ok pd ≫= ?k) with (k pd). cbv beta. rewrite Hdata.
  change (Ok (VRef sl) ≫= ?k) with (k (VRef sl)). cbv beta.
  by rewrite Hrun.
Qed.

End Merger.

Section MergerClaims.
Import Py Obj SlidesToJsonMerger.

(** Reading a field of the merged record, and its completeness report. *)
Definition merged_get (h : gmap positive object) (sp ep : positive)
    (f : string) : result value :=
  r ← merge_slide_data h sp ep;
  d ← as_dict r.1 (VRef r.2);
  Ok (get d f).

Definition merged_missing (h : gmap positive object) (sp ep : positive)
  : result (list string) :=
  r ← merge_slide_data h sp ep; check_completeness r.1 r.2.

(** A spreadsheet record at 1 and a slide payload at 2 (its data at 3) for
    the same reference, differing in their description. *)
Definition description_heap (existing : string) : gmap positive object :=
  <[1%positive := ODict (<["referenceString" := VStr "4.1.1"]>
                          (<["name" := VStr "Syringe"]>
                          (<["description" := VStr existing]> ∅)))]>
  (<[2%positive := ODict (<["data" := VRef 3]> ∅)]>
  (<[3%positive := ODict (<["referenceString" := VStr "4.1.1"]>
                          (<["description" := VStr "New"]> ∅))]> ∅)).

(** The packaging record every spreadsheet product starts with, and one
    read off a slide. *)
Definition placeholder_packaging : gmap string value :=
  <["packing_per_inner_box" := VInt 0]>
  (<["inner_boxes_per_carton" := VInt 0]>
  (<["loading_capacity_20GP" := VInt 0]>
  (<["loading_capacity_40HC" := VInt 0]>
  (<["additional_notes" := VStr "Not specified"]> ∅)))).

Definition slide_packaging : gmap string value :=
  <["packing_per_inner_box" := VInt 100]>
  (<["inner_boxes_per_carton" := VInt 10]>
  (<["loading_capacity_20GP" := VInt 2000]>
  (<["loading_capacity_40HC" := VInt 4800]>
  (<["additional_notes" := VStr "Not specified"]> ∅)))).

(** Record at 1 with the placeholder packaging at 2; payload at 3, its data
    at 4 with the slide's packaging at 5. *)
Definition packaging_heap : gmap positive object :=
  <[1%positive := ODict (<["referenceString" := VStr "4.1.1"]>
                          (<["PackagingInformation" := VRef 2]> ∅))]>
  (<[2%positive := ODict placeholder_packaging]>
  (<[3%positive := ODict (<["data" := VRef 4]> ∅)]>
  (<[4%positive := ODict (<["referenceString" := VStr "4.1.1"]>
                          (<["PackagingInformation" := VRef 5]> ∅))]>
  (<[5%positive := ODict slide_packaging]> ∅)))).

(** C1 (code defect): the record's packaging is the all-zero,
    "Not specified" placeholder, which [check_completeness] counts as
    missing; the slide carries real packaging; yet the merge keeps the
    placeholder, because a non-empty dict is truthy. *)
Theorem placeholder_packaging_blocks_merge :
  packaging_heap !! 2%positive = Some (ODict placeholder_packaging)
  ∧ meaningful packaging_heap placeholder_packaging = false
  ∧ truthy packaging_heap (VRef 2) = true
  ∧ merged_get packaging_heap 3 1 "PackagingInformation" = Ok (VRef 2)
  ∧ merged_missing packaging_heap 3 1
    = Ok ["standard"; "description"; "tableInMd"; "PackagingInformation";
          "images"].
Proof. by_computation. Qed.

(** C5: for each mergeable field the merged record takes the slide's value
    exactly when the existing value is falsy and the slide's value truthy,
    and keeps the existing entry otherwise; so a truthy existing value always
    wins. With existing description "Existing" and slide description "New"
    the result is "Existing"; with existing description "" it is "New". *)
Theorem merge_existing_wins :
  (∀ h sp ep ed sd,
     closed h → inputs h sp ep ed sd →
     ∃ h' m md,
       merge_slide_data h sp ep = Ok (h', m)
       ∧ h' !! m = Some (ODict md)
       ∧ (∀ f, f ∈ fields_to_merge →
            md !! f = if negb (truthy h (get ed f)) && truthy h (get sd f)
                      then Some (get sd f) else ed !! f)
       ∧ (∀ f, f ∈ fields_to_merge → truthy h (get ed f) = true →
            md !! f = ed !! f))
  ∧ merged_get (description_heap "Existing") 2 1 "description"
    = Ok (VStr "Existing")
  ∧ merged_get (description_heap "") 2 1 "description" = Ok (VStr "New").
Proof.
  split; [| by_computation].
  intros h sp ep ed sd Hc Hin.
  destruct (merge_slide_data_spec h sp ep ed sd Hc Hin) as (md & Hrun & Hk).
  eexists _, _, md. split; [exact Hrun |].
  split; [apply lookup_insert_eq |].
  split; intros f Hf; rewrite Hk, (bool_decide_eq_true_2 _ Hf).
  - reflexivity.
  - intros ->. reflexivity.
Qed.

Lemma merge_existing_wins_witness :
  closed (description_heap "") ∧
  ∃ ed sd, inputs (description_heap "") 2 1 ed sd ∧
  ∃ h' m md,
    merge_slide_data (description_heap "") 2 1 = Ok (h', m)
    ∧ h' !! m = Some (ODict md)
    ∧ (∀ f, f ∈ fields_to_merge →
         md !! f = if negb (truthy (description_heap "") (get ed f))
                      && truthy (description_heap "") (get sd f)
                   then Some (get sd f) else ed !! f)
    ∧ (∀ f, f ∈ fields_to_merge →
         truthy (description_heap "") (get ed f) = true → md !! f = ed !! f).
Proof.
  assert (Hc : closed (description_heap "")).
  { apply (bool_decide_unpack (closed (description_heap ""))).
    vm_compute. exact I. }
  assert (Hin : inputs (description_heap "") 2 1
            (<["referenceString" := VStr "4.1.1"]>
               (<["name" := VStr "Syringe"]> (<["description" := VStr ""]> ∅)))
            (<["referenceString" := VStr "4.1.1"]>
               (<["description" := VStr "New"]> ∅))).
  { split; [vm_compute; reflexivity |]. eexists _, 3%positive.
    split; [vm_compute; reflexivity |].
    split; vm_compute; reflexivity. }
  split; [exact Hc |]. eexists _, _. split; [exact Hin |].
  exact (proj1 merge_existing_wins _ _ _ _ _ Hc Hin).
Defined.

(** C9: the merge allocates a new dict and writes to nothing else: every
    object of the heap before the call, both input records among them, is
    unchanged after it, and the new dict agrees with the spreadsheet record
    on every key other than the five mergeable fields. *)
Theorem merge_frame h sp ep h' m :
  is_Some (h !! sp) →
  merge_slide_data h sp ep = Ok (h', m) →
  h !! m = None
  ∧ (∀ l, is_Some (h !! l) → h' !! l = h !! l)
  ∧ h' !! sp = h !! sp
  ∧ ∃ ed md,
      h !! ep = Some (ODict ed) ∧ h' !! ep = Some (ODict ed)
      ∧ h' !! m = Some (ODict md)
      ∧ ∀ k, k ∉ fields_to_merge → md !! k = ed !! k.
Proof.
  unfold merge_slide_data. intros Hsp H.
  apply bind_ok in H as (ed & Hed & H).
  apply as_dict_ok in Hed as (l & [= <-] & Hep).
  apply bind_ok in H as (pd & _ & H).
  apply bind_ok in H as (slv & _ & H).
  apply bind_ok in H as (h2 & Hrun & H). injection H as <- <-.
  pose proof (fresh_unused h) as Hm.
  apply merge_fields_frame in Hrun as (md & -> & Hk).
  assert (Hframe : ∀ l, is_Some (h !! l) →
            <[fresh (dom h) := ODict md]> h !! l = h !! l).
  { intros l [o Ho]. rewrite lookup_insert_ne; [done |]. intros E.
    rewrite E in Hm. congruence. }
  split; [done |]. split; [done |]. split; [by apply Hframe |].
  exists ed, md. split; [done |].
  split; [rewrite Hframe; [done | by eexists] |].
  split; [apply lookup_insert_eq | done].
Qed.

Lemma merge_frame_witness :
  is_Some (description_heap "Existing" !! 2%positive)
  ∧ ∃ h' m,
      merge_slide_data (description_heap "Existing") 2 1 = Ok (h', m)
      ∧ description_heap "Existing" !! m = None
      ∧ (∀ l, is_Some (description_heap "Existing" !! l) →
              h' !! l = description_heap "Existing" !! l)
      ∧ h' !! 2%positive = description_heap "Existing" !! 2%positive
      ∧ ∃ ed md,
          description_heap "Existing" !! 1%positive = Some (ODict ed)
          ∧ h' !! 1%positive = Some (ODict ed)
          ∧ h' !! m = Some (ODict md)
          ∧ ∀ k, k ∉ fields_to_merge → md !! k = ed !! k.
Proof.
  assert (Hsp : is_Some (description_heap "Existing" !! 2%positive)).
  { eexists. vm_compute. reflexivity. }
  split; [exact Hsp |].
  destruct (merge_slide_data (description_heap "Existing") 2 1)
    as [[h' m]|e] eqn:Hrun; [| vm_compute in Hrun; discriminate Hrun].
  exists h', m. split; [reflexivity |].
  exact (merge_frame _ 2%positive 1%positive h' m Hsp Hrun).
Defined.

End MergerClaims.

(** ** Lookup resolver *)
Section Lookup.
Import Py ExcelToJsonCustom.

(** No entry of the fetched mapping carries the wanted name, up to case. *)
Definition unmatched (categories_map : list (string * string))
    (category_name : string) : Prop :=
  ∀ cat_id cat_name, (cat_id, cat_name) ∈ categories_map →
    upper cat_name ≠ upper category_name.

Lemma find_by_name_first before cat_id cat_name after category_name :
  unmatched before category_name →
  upper cat_name = upper category_name →
  find_by_name (before ++ (cat_id, cat_name) :: after) category_name
  = Some cat_id.
Proof.
  intros Hb He. induction before as [|[i n] before IH]; simpl.
  - by rewrite He, String.eqb_refl.
  - destruct (String.eqb_spec (upper n) (upper category_name)) as [E|_].
    + exfalso. by apply (Hb i n); [apply list_elem_of_here |].
    + apply IH. intros i' n' Hin. apply (Hb i' n'). by apply list_elem_of_further.
Qed.

Lemma find_by_name_none categories_map category_name :
  unmatched categories_map category_name →
  find_by_name categories_map category_name = None.
Proof.
  intros H. induction categories_map as [|[i n] rest IH]; [done |]. simpl.
  destruct (String.eqb_spec (upper n) (upper category_name)) as [E|_].
  - exfalso. by apply (H i n); [apply list_elem_of_here |].
  - apply IH. intros i' n' Hin. apply (H i' n'). by apply list_elem_of_further.
Qed.

(** C3 (as stated, refuted): a name found in neither table is answered with
    the id 59 and the flag [False], the very answer given for "Syringes"
    when only the hardcoded table knows it: a default id, not an
    unresolved outcome. *)
Lemma unresolved_category_gets_default :
  find_by_name [("12", "Gloves")] "Unheard Of" = None
  ∧ assoc category_mapping (upper "Unheard Of") = None
  ∧ map_category_to_id "Unheard Of" [("12", "Gloves")] = Ok (59, false)
  ∧ map_category_to_id "Syringes" [("12", "Gloves")] = Ok (59, false).
Proof. by_computation. Qed.

(** C3 (amended): category resolution first takes the first entry of the
    fetched mapping whose name equals the wanted name up to case and returns
    its id with the flag [True]; failing that it looks the upper-cased name
    up in the hardcoded table and returns that id with the flag [False];
    when neither matches it returns the default id 59 (SYRINGES), again with
    the flag [False]. One id is returned in every case. *)
Theorem map_category_to_id_resolution :
  (∀ before cat_id cat_name after category_name n,
     unmatched before category_name →
     upper cat_name = upper category_name →
     py_int cat_id = Ok n →
     map_category_to_id category_name (before ++ (cat_id, cat_name) :: after)
     = Ok (n, true))
  ∧ (∀ categories_map category_name id,
       unmatched categories_map category_name →
       assoc category_mapping (upper category_name) = Some id →
       map_category_to_id category_name categories_map = Ok (id, false))
  ∧ (∀ categories_map category_name,
       unmatched categories_map category_name →
       assoc category_mapping (upper category_name) = None →
       map_category_to_id category_name categories_map = Ok (59, false))
  ∧ map_category_to_id "gloves" [("7", "Needles"); ("12", "Gloves")]
    = Ok (12, true)
  ∧ map_category_to_id "Gauze" [("7", "Needles")] = Ok (71, false).
Proof.
  split; [| split; [| split; [| by_computation]]].
  - intros before cat_id cat_name after category_name n Hb He Hn.
    unfold map_category_to_id.
    rewrite (find_by_name_first _ _ _ _ _ Hb He), Hn. reflexivity.
  - intros cmap category_name id Hu Ha. unfold map_category_to_id.
    rewrite (find_by_name_none _ _ Hu), Ha. reflexivity.
  - intros cmap category_name Hu Ha. unfold map_category_to_id.
    rewrite (find_by_name_none _ _ Hu), Ha. reflexivity.
Qed.

Lemma map_category_to_id_resolution_witness :
  unmatched [("7", "Needles")] "gloves"
  ∧ upper "Gloves" = upper "gloves"
  ∧ py_int "12" = Ok 12
  ∧ map_category_to_id "gloves" ([("7", "Needles")] ++ ("12", "Gloves") :: [])
    = Ok (12, true).
Proof.
  assert (Hu : unmatched [("7", "Needles")] "gloves").
  { intros i n Hin. apply list_elem_of_singleton in Hin as [= -> ->].
    vm_compute. discriminate. }
  assert (He : upper "Gloves" = upper "gloves") by (vm_compute; reflexivity).
  assert (Hn : py_int "12" = Ok 12) by (vm_compute; reflexivity).
  split; [exact Hu |]. split; [exact He |]. split; [exact Hn |].
  exact (proj1 map_category_to_id_resolution
           [("7", "Needles")] "12" "Gloves" [] "gloves" 12 Hu He Hn).
Defined.

End Lookup.

(** ** Upload client *)
Section Upload.
Import Py Http.

(** The environment answers the requests numbered [from], ..., [from + n - 1]
    with transport failures. *)
Definition failing (env : nat → outcome) (from n : nat) : Prop :=
  ∀ j, (j < n)%nat → env (from + j)%nat = TransportError.

Lemma attempts_transport_error left env log c :
  env (length log) = TransportError →
  Strapi.attempts (S left) env log c = Strapi.attempts left env (log ++ [c]) c.
Proof.
  intros H. simpl. unfold request. rewrite H. by destruct left.
Qed.

Lemma replicate_snoc {A} (x : A) n log :
  (log ++ [x]) ++ replicate n x = log ++ replicate (S n) x.
Proof. by rewrite <- app_assoc. Qed.

(** The retry loop stops at the first response, whatever its status. *)
Lemma attempts_response left env log c i r :
  (i < left)%nat →
  failing env (length log) i →
  env (length log + i)%nat = Responds r →
  Strapi.attempts left env log c = (Some r, log ++ replicate (S i) c).
Proof.
  revert log i. induction left as [|left IH]; intros log i Hi Hf Hr; [lia |].
  destruct i as [|i].
  - rewrite Nat.add_0_r in Hr. simpl. unfold request. by rewrite Hr.
  - rewrite attempts_transport_error.
    + rewrite (IH (log ++ [c]) i), replicate_snoc; [done | lia | |].
      * intros j Hj. rewrite length_app. simpl.
        replace (length log + 1 + j)%nat with (length log + S j)%nat by lia.
        apply Hf. lia.
      * rewrite length_app. simpl.
        by replace (length log + 1 + i)%nat with (length log + S i)%nat by lia.
    + specialize (Hf 0%nat). rewrite Nat.add_0_r in Hf. apply Hf. lia.
Qed.

(** After [left] transport failures in a row the loop gives up. *)
Lemma attempts_give_up left env log c :
  failing env (length log) left →
  Strapi.attempts left env log c = (None, log ++ replicate left c).
Proof.
  revert log. induction left as [|left IH]; intros log Hf.
  - simpl. by rewrite app_nil_r.
  - rewrite attempts_transport_error.
    + rewrite (IH (log ++ [c])), replicate_snoc; [done |].
      intros j Hj. rewrite length_app. simpl.
      replace (length log + 1 + j)%nat with (length log + S j)%nat by lia.
      apply Hf. lia.
    + specialize (Hf 0%nat). rewrite Nat.add_0_r in Hf. apply Hf. lia.
Qed.

Lemma status_in_two r a b :
  status_in r [a; b] = true ↔ status_code r = a ∨ status_code r = b.
Proof.
  unfold status_in. simpl. rewrite orb_false_r, orb_true_iff, !Z.eqb_eq. tauto.
Qed.

Lemma upsert_some env log existing d log' :
  Strapi.upsert_product env log existing = (Ok (Some d), log') →
  ∃ method url r,
    Strapi._make_request env log method url None = (Some r, log')
    ∧ (status_code r = 200 ∨ status_code r = 201).
Proof.
  unfold Strapi.upsert_product. destruct existing as [product_id|].
  - destruct (Strapi._make_request env log "PUT" _ None) as [[r|] l] eqn:E;
      [| intros [=]].
    destruct (ok r && status_in r [200; 201]) eqn:Es; [| intros [=]].
    intros H. injection H as _ <-. eexists _, _, r. split; [exact E |].
    apply andb_true_iff in Es as [_ Es]. by apply status_in_two.
  - destruct (Strapi._make_request env log "POST" _ None) as [[r|] l] eqn:E;
      [| intros [=]].
    destruct (ok r && status_in r [200; 201]) eqn:Es; [| intros [=]].
    intros H. injection H as _ <-. eexists _, _, r. split; [exact E |].
    apply andb_true_iff in Es as [_ Es]. by apply status_in_two.
Qed.

(** The request an upsert sends. *)
Definition upsert_call (existing : option Z) : string * string :=
  match existing with
  | Some product_id => ("PUT", Strapi.BASE +:+ "/" +:+ pretty product_id)
  | None => ("POST", Strapi.BASE)
  end.

Lemma upsert_none env log existing :
  match Strapi._make_request env log (upsert_call existing).1
          (upsert_call existing).2 None with
  | (Some r, log') =>
      status_in r [200; 201] = false →
      Strapi.upsert_product env log existing = (Ok None, log')
  | (None, log') => Strapi.upsert_product env log existing = (Ok None, log')
  end.
Proof.
  unfold Strapi.upsert_product, upsert_call. destruct existing as [product_id|];
    simpl; destruct (Strapi._make_request env log _ _ None) as [[r|] l];
    try done; intros ->; by rewrite andb_false_r.
Qed.

Lemma delete_spec env log product_id :
  match Strapi._make_request env log "DELETE"
          (Strapi.BASE +:+ "/" +:+ pretty product_id) None with
  | (Some r, log') =>
      Strapi.delete_product env log product_id
      = (bool_decide (status_code r = 200 ∨ status_code r = 204), log')
  | (None, log') => Strapi.delete_product env log product_id = (false, log')
  end.
Proof.
  unfold Strapi.delete_product.
  destruct (Strapi._make_request env log _ _ None) as [[r|] l]; [| done].
  f_equal. destruct (status_in r [200; 204]) eqn:Es.
  - pose proof (proj1 (status_in_two r 200 204) Es) as Hs.
    rewrite bool_decide_eq_true_2 by done.
    unfold ok. destruct Hs as [-> | ->]; reflexivity.
  - rewrite andb_false_r. symmetry. apply bool_decide_eq_false_2.
    intros Hs. apply status_in_two in Hs. congruence.
Qed.

End Upload.

Section UploadClaims.
Import Py Http.

(** A remote side that fails the first request at transport level and
    answers every later one with [201] and a record with id 7. *)
Definition flaky (n : nat) : outcome :=
  match n with
  | O => TransportError
  | S _ => Responds (Response 201 (Data (Some 7)))
  end.

(** C4 (as stated, refuted): the batch uploader's request carries no
    timeout, and a transport failure ends it after one attempt, where the
    same failure is retried by [_make_request]. *)
Lemma batch_upload_no_timeout_no_retry :
  BatchUploader.upload_single_product flaky []
  = (BatchUploader.NetworkError,
     [Call "POST" BatchUploader.PRODUCTION_URL None])
  ∧ Strapi.upsert_product flaky [] None
    = (Ok (Some (Some 7)),
       [Call "POST" Strapi.BASE (Some 5); Call "POST" Strapi.BASE (Some 5)]).
Proof. by_computation. Qed.

(** C4 (amended): every request sent through [_make_request] carries the
    timeout of 5 seconds unless the caller sets one, and is attempted at most
    3 times: an attempt that ends in a transport failure is followed by the
    next, and the first response, whatever its status, is returned at once;
    three failures give [None]. [upsert_product] returns data only for status
    200 or 201 and [None] for any other status or when no response came;
    [delete_product] returns [True] exactly for status 200 or 204. The batch
    uploader sends one request without a timeout and never retries; it
    reports success only for status 200 or 201, and any other status or a
    transport failure as a failure record. *)
Theorem upload_client_policy :
  (∀ env log method url i r,
     (i < Strapi.MAX_RETRIES)%nat →
     failing env (length log) i →
     env (length log + i)%nat = Responds r →
     Strapi._make_request env log method url None
     = (Some r, log ++ replicate (S i) (Call method url (Some Strapi.TIMEOUT))))
  ∧ (∀ env log method url,
       failing env (length log) Strapi.MAX_RETRIES →
       Strapi._make_request env log method url None
       = (None, log ++ replicate Strapi.MAX_RETRIES
                         (Call method url (Some Strapi.TIMEOUT))))
  ∧ (∀ env log existing d log',
       Strapi.upsert_product env log existing = (Ok (Some d), log') →
       ∃ method url r,
         Strapi._make_request env log method url None = (Some r, log')
         ∧ (status_code r = 200 ∨ status_code r = 201))
  ∧ (∀ env log existing,
       match Strapi._make_request env log (upsert_call existing).1
               (upsert_call existing).2 None with
       | (Some r, log') =>
           status_in r [200; 201] = false →
           Strapi.upsert_product env log existing = (Ok None, log')
       | (None, log') =>
           Strapi.upsert_product env log existing = (Ok None, log')
       end)
  ∧ (∀ env log product_id,
       match Strapi._make_request env log "DELETE"
               (Strapi.BASE +:+ "/" +:+ pretty product_id) None with
       | (Some r, log') =>
           Strapi.delete_product env log product_id
           = (bool_decide (status_code r = 200 ∨ status_code r = 204), log')
       | (None, log') =>
           Strapi.delete_product env log product_id = (false, log')
       end)
  ∧ (∀ env log,
       (BatchUploader.upload_single_product env log).2
       = log ++ [Call "POST" BatchUploader.PRODUCTION_URL None]
       ∧ (∀ id, (BatchUploader.upload_single_product env log).1
                = BatchUploader.Uploaded id →
            ∃ r, env (length log) = Responds r
                 ∧ (status_code r = 200 ∨ status_code r = 201))
       ∧ (env (length log) = TransportError →
          (BatchUploader.upload_single_product env log).1
          = BatchUploader.NetworkError)
       ∧ (∀ r, env (length log) = Responds r →
            status_in r [200; 201] = false →
            (BatchUploader.upload_single_product env log).1
            = BatchUploader.HttpFailure (status_code r)))
  ∧ Strapi._make_request (λ _, Responds (Response 503 NotJson)) [] "GET" "/x" None
    = (Some (Response 503 NotJson), [Call "GET" "/x" (Some 5)]).
Proof.
  split; [| split; [| split; [| split; [| split; [| split]]]]].
  - intros env log method url i r Hi Hf Hr. unfold Strapi._make_request.
    by apply attempts_response.
  - intros env log method url Hf. unfold Strapi._make_request.
    by apply attempts_give_up.
  - apply upsert_some.
  - apply upsert_none.
  - apply delete_spec.
  - intros env log. unfold BatchUploader.upload_single_product, request.
    destruct (env (length log)) as [|r] eqn:E.
    + split; [reflexivity |]. split; [intros id H; discriminate H |].
      split; [reflexivity | intros r H; discriminate H].
    + destruct (status_in r [200; 201]) eqn:Es.
      * assert (Hs : status_code r = 200 ∨ status_code r = 201)
          by (by apply status_in_two).
        assert (Hno : ∀ r', Responds r = Responds r' →
                  status_in r' [200; 201] = false → False)
          by (intros r' [= <-] Hn; congruence).
        destruct (json r) as [| |[id|]];
          (split; [reflexivity |]);
          (split; [intros id' H; try discriminate H; by exists r |]);
          (split; [intros H; discriminate H |]);
          intros r' Hr Hn; destruct (Hno r' Hr Hn).
      * simpl. split; [reflexivity |]. split; [intros id H; discriminate H |].
        split; [intros H; discriminate H |]. by intros r' [= <-] _.
  - by_computation.
Qed.

Lemma upload_client_policy_witness :
  (1 < Strapi.MAX_RETRIES)%nat
  ∧ failing flaky (length (@nil call)) 1
  ∧ flaky (length (@nil call) + 1)%nat = Responds (Response 201 (Data (Some 7)))
  ∧ Strapi._make_request flaky [] "POST" Strapi.BASE None
    = (Some (Response 201 (Data (Some 7))),
       [] ++ replicate 2 (Call "POST" Strapi.BASE (Some Strapi.TIMEOUT))).
Proof.
  assert (H1 : (1 < Strapi.MAX_RETRIES)%nat) by (unfold Strapi.MAX_RETRIES; lia).
  assert (H2 : failing flaky (length (@nil call)) 1).
  { intros j Hj. replace j with 0%nat by lia. reflexivity. }
  split; [exact H1 |]. split; [exact H2 |]. split; [reflexivity |].
  exact (proj1 upload_client_policy flaky [] "POST" Strapi.BASE 1%nat
           (Response 201 (Data (Some 7))) H1 H2 eq_refl).
Defined.

End UploadClaims.

(** ** Slug builder *)
Section Slugs.
Import Py Obj SlugBuilder.

Lemma numbered_inj base_slug j k :
  numbered base_slug j = numbered base_slug k → j = k.
Proof.
  unfold numbered. intros H.
  apply (String.app_inj base_slug), (String.app_inj "-") in H.
  by apply (inj pretty) in H.
Qed.

Lemma numbered_ne_base base_slug k : numbered base_slug k ≠ base_slug.
Proof.
  unfold numbered. intros H. apply (f_equal String.length) in H.
  rewrite !str_app_length in H. simpl in H. lia.
Qed.

(** The [k]-th slug the loop tries. *)
Definition candidate (base_slug : string) (k : nat) : string :=
  match k with
  | O => base_slug
  | S _ => numbered base_slug k
  end.

Lemma candidate_inj base_slug j k :
  candidate base_slug j = candidate base_slug k → j = k.
Proof.
  destruct j, k; simpl; intros H; try done.
  - symmetry in H. by apply numbered_ne_base in H.
  - by apply numbered_ne_base in H.
  - by apply numbered_inj in H.
Qed.

Lemma unique_loop_step fuel base_slug existing k :
  unique_loop fuel base_slug existing (candidate base_slug k) (k + 1)
  = if decide (candidate base_slug k ∈ existing) then
      match fuel with
      | O => None
      | S fuel' =>
          unique_loop fuel' base_slug existing
            (candidate base_slug (S k)) (S k + 1)
      end
    else Some (candidate base_slug k).
Proof.
  destruct fuel; simpl; [reflexivity |].
  rewrite !Nat.add_1_r. reflexivity.
Qed.

(** Pigeonhole: the candidates are pairwise distinct, so a loop allowed as
    many further rounds as there are slugs still to be met ends with a slug
    that is not taken. *)
Lemma unique_loop_total base_slug (existing : gset string) fuel k
    (remaining : gset string) :
  (∀ j, (k ≤ j)%nat → candidate base_slug j ∈ existing →
        candidate base_slug j ∈ remaining) →
  (size remaining ≤ fuel)%nat →
  ∃ s, unique_loop fuel base_slug existing (candidate base_slug k) (k + 1)
       = Some s ∧ s ∉ existing.
Proof.
  revert k remaining. induction fuel as [|fuel IH]; intros k remaining Hrem Hsz;
    rewrite unique_loop_step;
    destruct (decide (candidate base_slug k ∈ existing)) as [Hin|Hout];
    try (by eexists).
  - apply Hrem in Hin; [| lia].
    assert (size remaining ≠ 0)%nat; [| lia].
    apply size_non_empty_iff. set_solver.
  - apply (IH (S k) (remaining ∖ {[candidate base_slug k]})).
    + intros j Hj Hj'. apply elem_of_difference. split; [apply Hrem; [lia | done] |].
      intros Heq%elem_of_singleton%candidate_inj. lia.
    + apply Hrem in Hin; [| lia].
      rewrite size_difference by set_solver. rewrite size_singleton.
      assert (size remaining ≠ 0)%nat; [| lia].
      apply size_non_empty_iff. set_solver.
Qed.

(** [generate_unique_slug] always returns, and never a slug already taken. *)
Lemma generate_unique_slug_fresh name (existing : gset string) :
  ∃ s, generate_unique_slug name existing = Some s ∧ s ∉ existing.
Proof.
  unfold generate_unique_slug.
  set (base_slug := if String.eqb (slugify name) "" then "product" else slugify name).
  apply (unique_loop_total base_slug existing (size existing) 0 existing);
    [done | lia].
Qed.




End Slugs.

Section SlugClaims.
Import Py Obj SlugBuilder.







End SlugClaims.

(** ** Row conversion of excel_to_json.py *)
Section RowConversion.
Import Py ExcelToJson.

(** With no id missing, the names are those of the ids, in order. *)
Lemma get_division_names_all ids (dm : gmap string string) names :
  get_division_names ids dm = (names, []) →
  Forall2 (λ d nm, dm !! pretty d = Some nm) ids names.
Proof.
  revert names. induction ids as [|d ids IH]; intros names; simpl.
  - intros [= <-]. constructor.
  - destruct (get_division_names ids dm) as [ns ms].
    destruct (dm !! pretty d) as [nm|] eqn:E; [| intros [=]].
    intros [= <- ->]. constructor; [done | by apply IH].
Qed.

Lemma get_division_names_missing ids (dm : gmap string string) d :
  d ∈ ids → dm !! pretty d = None →
  (get_division_names ids dm).2 ≠ [].
Proof.
  intros Hin Hd. induction Hin as [d ids|d d' ids _ IH]; simpl.
  - destruct (get_division_names ids dm) as [ns ms]. by rewrite Hd.
  - destruct (get_division_names ids dm) as [ns ms].
    destruct (dm !! pretty d'); simpl; [by apply IH | done].
Qed.

Lemma process_row_some row cm dm p info :
  process_row row cm dm = (Some p, info) →
  truthy (row_get row "category") = true
  ∧ cm !! str (row_get row "category") = Some (categoryName p)
  ∧ (∃ n, category p = Some n ∧ int_of_cell (row_get row "category") = Ok n)
  ∧ divisions p = parse_divisions (row_get row "divisions")
  ∧ Forall2 (λ d nm, dm !! pretty d = Some nm) (divisions p) (divisionNames p)
  ∧ has_category info = true
  ∧ missing_category_id info = None
  ∧ missing_division_ids info = [].
Proof.
  unfold process_row.
  destruct (get_division_names (parse_divisions (row_get row "divisions")) dm)
    as [names missing] eqn:Hd.
  destruct (truthy (row_get row "category")) eqn:Ht; [| intros [=]].
  destruct (cm !! str (row_get row "category")) as [cname|] eqn:Hc;
    [| intros [=]].
  destruct missing as [|m ms]; [| intros [=]].
  destruct (int_of_cell (row_get row "category")) as [n|e] eqn:Hn;
    [| intros [=]].
  intros [= <- <-]. simpl.
  split; [done |]. split; [done |]. split; [by exists n |]. split; [done |].
  split; [by apply get_division_names_all |].
  split; [reflexivity |]. split; reflexivity.
Qed.

Lemma process_row_none row cm dm :
  (truthy (row_get row "category") = false
   ∨ cm !! str (row_get row "category") = None
   ∨ ∃ d, d ∈ parse_divisions (row_get row "divisions")
          ∧ dm !! pretty d = None) →
  (process_row row cm dm).1 = None.
Proof.
  intros H. unfold process_row.
  destruct (get_division_names (parse_divisions (row_get row "divisions")) dm)
    as [names missing] eqn:Hd.
  destruct H as [Ht|[Hc|(d & Hin & Hm)]].
  - by rewrite Ht.
  - rewrite Hc. by destruct (truthy _).
  - pose proof (get_division_names_missing _ dm d Hin Hm) as Hne.
    rewrite Hd in Hne. simpl in Hne.
    destruct (if truthy _ then _ else _); [| done].
    destruct missing; [done | done].
Qed.

(** C10: a row yields a product only when its category id is truthy and a
    key of the categories map and every parsed division id is a key of the
    divisions map; otherwise the result is [None] (with the validation
    info). Hence every emitted product has a category id, the category name
    of the map, and one division name per division id, each the map's. *)
Theorem process_row_resolved :
  (∀ row cm dm p info,
     process_row row cm dm = (Some p, info) →
     truthy (row_get row "category") = true
     ∧ cm !! str (row_get row "category") = Some (categoryName p)
     ∧ (∃ n, category p = Some n
             ∧ int_of_cell (row_get row "category") = Ok n)
     ∧ divisions p = parse_divisions (row_get row "divisions")
     ∧ Forall2 (λ d nm, dm !! pretty d = Some nm)
               (divisions p) (divisionNames p)
     ∧ has_category info = true
     ∧ missing_category_id info = None
     ∧ missing_division_ids info = [])
  ∧ (∀ row cm dm,
       (truthy (row_get row "category") = false
        ∨ cm !! str (row_get row "category") = None
        ∨ ∃ d, d ∈ parse_divisions (row_get row "divisions")
               ∧ dm !! pretty d = None) →
       (process_row row cm dm).1 = None)
  ∧ (∀ rows cm dm p,
       p ∈ emitted rows cm dm →
       is_Some (category p)
       ∧ (∃ cid, cm !! cid = Some (categoryName p))
       ∧ Forall2 (λ d nm, dm !! pretty d = Some nm)
                 (divisions p) (divisionNames p)).
Proof.
  split; [exact process_row_some |]. split; [exact process_row_none |].
  intros rows cm dm p Hp. unfold emitted in Hp.
  apply list_elem_of_omap in Hp as (row & _ & Hrow).
  destruct (process_row row cm dm) as [o info] eqn:E. simpl in Hrow. subst o.
  destruct (process_row_some row cm dm p info E)
    as (_ & Hc & (n & Hn & _) & _ & Hd & _).
  split; [by rewrite Hn |]. split; [by eexists | done].
Qed.

(** A row with category 59 and divisions "48, 49", and maps that know them. *)
Definition sample_row : gmap string cell :=
  <["name" := PStr "Syringe 5ml"]>
  (<["referenceString" := PStr "1.1"]>
  (<["category" := PInt 59]>
  (<["divisions" := PStr "48, 49"]> ∅))).

Definition sample_categories : gmap string string :=
  <["59" := "Syringes"]> ∅.

Definition sample_divisions : gmap string string :=
  <["48" := "Injection"]> (<["49" := "Diabetes Care"]> ∅).

Lemma process_row_resolved_witness :
  ∃ p info,
    process_row sample_row sample_categories sample_divisions = (Some p, info)
    ∧ category p = Some 59
    ∧ divisions p = [48; 49]
    ∧ divisionNames p = ["Injection"; "Diabetes Care"]
    ∧ truthy (row_get sample_row "category") = true
    ∧ sample_categories !! str (row_get sample_row "category")
      = Some (categoryName p)
    ∧ Forall2 (λ d nm, sample_divisions !! pretty d = Some nm)
              (divisions p) (divisionNames p).
Proof.
  destruct (process_row sample_row sample_categories sample_divisions)
    as [[p|] info] eqn:E; [| vm_compute in E; discriminate E].
  exists p, info. split; [reflexivity |].
  destruct (proj1 process_row_resolved _ _ _ p info E)
    as (Ht & Hc & _ & _ & Hd & _).
  vm_compute in E. injection E as <- _.
  split; [reflexivity |]. split; [reflexivity |]. split; [reflexivity |].
  split; [exact Ht |]. split; [exact Hc | exact Hd].
Defined.

End RowConversion.

(** * Further properties of the modelled code *)

Section IsoList.
Import Py ExcelToProducts.

Lemma lstrip_suffix l : ∃ pre, l = pre ++ lstrip_chars l.
Proof.
  induction l as [|a l [pre IH]]; [by exists [] |]. simpl.
  destruct (is_space a).
  - exists (a :: pre). simpl. by rewrite <- IH.
  - by exists [].
Qed.

Lemma lstrip_head l a t : lstrip_chars l = a :: t → is_space a = false.
Proof.
  induction l as [|b l IH]; simpl; [done |].
  destruct (is_space b) eqn:E; [done |]. by intros [= <- _].
Qed.

Lemma lstrip_fixed a t : is_space a = false → lstrip_chars (a :: t) = a :: t.
Proof. intros H. simpl. by rewrite H. Qed.

Lemma lstrip_idem l : lstrip_chars (lstrip_chars l) = lstrip_chars l.
Proof.
  destruct (lstrip_chars l) as [|a t] eqn:E; [done |].
  apply lstrip_fixed. by eapply lstrip_head.
Qed.

(** Stripping the left end of a text that ends in a visible character
    leaves a text that still ends in it. *)
Lemma lstrip_snoc x a :
  is_space a = false → ∃ y, lstrip_chars (x ++ [a]) = y ++ [a].
Proof.
  intros Ha. induction x as [|b x IH]; simpl.
  - rewrite Ha. by exists [].
  - destruct (is_space b); [done |]. by exists (b :: x).
Qed.

Lemma strip_chars_idem l : strip_chars (strip_chars l) = strip_chars l.
Proof.
  unfold strip_chars at 2 3.
  destruct (lstrip_chars l) as [|a t] eqn:E; [done |].
  pose proof (lstrip_head _ _ _ E) as Ha.
  destruct (lstrip_snoc (rev t) a Ha) as [y Hy].
  assert (Hs : rev (lstrip_chars (rev (a :: t))) = a :: rev y).
  { simpl. rewrite Hy, rev_app_distr. reflexivity. }
  rewrite Hs. unfold strip_chars. rewrite (lstrip_fixed a (rev y) Ha).
  simpl. rewrite rev_involutive, <- Hy, lstrip_idem, Hy, rev_app_distr.
  reflexivity.
Qed.

Lemma chars_of_string_roundtrip s : of_chars (chars s) = s.
Proof. apply string_of_list_ascii_of_string. Qed.

Lemma strip_idem s : strip (strip s) = strip s.
Proof. unfold strip. by rewrite chars_of_chars, strip_chars_idem. Qed.

Lemma lstrip_Forall (P : ascii → Prop) l :
  Forall P l → Forall P (lstrip_chars l).
Proof.
  induction 1 as [|a l Ha Hl IH]; simpl; [constructor |].
  destruct (is_space a); [done | by constructor].
Qed.

Lemma strip_chars_Forall (P : ascii → Prop) l :
  Forall P l → Forall P (strip_chars l).
Proof.
  intros H. unfold strip_chars.
  by apply Forall_rev, lstrip_Forall, Forall_rev, lstrip_Forall.
Qed.

(** No piece of a split contains a separator. *)
Lemma split_chars_clean sep cur l :
  Forall (λ a, sep a = false) cur →
  Forall (Forall (λ a, sep a = false)) (split_chars sep cur l).
Proof.
  revert cur. induction l as [|a l IH]; intros cur Hcur; simpl.
  - constructor; [by apply Forall_rev | constructor].
  - destruct (sep a) eqn:E.
    + constructor; [by apply Forall_rev | by apply IH].
    + apply IH. by constructor.
Qed.

Definition is_delimiter (a : ascii) : bool :=
  (a =? "/")%char || (a =? ",")%char || (a =? ";")%char.

(** Every name [parse_iso_list] returns is non-empty, carries no blank at
    either end and no delimiter; a missing cell gives no name at all. *)
Theorem parse_iso_list_clean (x : cell) :
  Forall (λ p, p ≠ "" ∧ strip p = p
               ∧ Forall (λ a, is_delimiter a = false) (chars p))
         (parse_iso_list x)
  ∧ (if isna x then parse_iso_list x = [] else True).
Proof.
  unfold parse_iso_list. destruct (isna x); [by split |].
  split; [| done].
  destruct (_ || _); [constructor |].
  apply Forall_forall. intros p Hp.
  apply list_elem_of_fmap in Hp as (q & -> & Hq).
  apply list_elem_of_filter in Hq as [Hne Hq].
  split; [done |]. split; [apply strip_idem |].
  unfold split_on in Hq. apply list_elem_of_fmap in Hq as (cs & -> & Hcs).
  unfold strip. rewrite !chars_of_chars. apply strip_chars_Forall.
  pose proof (split_chars_clean is_delimiter [] (chars (strip (str x)))
                (Forall_nil_2 _)) as Hall.
  rewrite Forall_forall in Hall. by apply Hall.
Qed.
End IsoList.

Section VariationErrors.
Import Py ExcelToProducts.





End VariationErrors.

Section ForwardFill.
Import Py ExcelToProducts.

Lemma row_get_insert (r : gmap string cell) col w :
  row_get (<[col := w]> r) col = w.
Proof. unfold row_get. by rewrite lookup_insert_eq. Qed.

Lemma ffill_cons col last r t :
  ffill col last (r :: t)
  = (if isna (row_get r col)
     then match last with Some w => <[col := w]> r | None => r end
     else r)
    :: ffill col (if isna (row_get r col) then last else Some (row_get r col)) t.
Proof. simpl. destruct (isna (row_get r col)); [by destruct last | done]. Qed.

Lemma ffill_length col last rs : length (ffill col last rs) = length rs.
Proof.
  revert last. induction rs as [|r t IH]; intros last; [done |].
  rewrite ffill_cons. simpl. by rewrite IH.
Qed.

(** A cell that holds a value is left as it is. *)
Lemma ffill_keeps col last rs i r :
  rs !! i = Some r → isna (row_get r col) = false →
  ffill col last rs !! i = Some r.
Proof.
  revert last i. induction rs as [|r0 t IH]; intros last i Hi Hr; [done |].
  rewrite ffill_cons. destruct i as [|i]; simpl in *.
  - injection Hi as ->. by rewrite Hr.
  - by apply IH.
Qed.

(** Only the filled column of a row can change. *)
Lemma ffill_other col last rs i r r' k :
  k ≠ col → rs !! i = Some r → ffill col last rs !! i = Some r' →
  r' !! k = r !! k.
Proof.
  intros Hk. revert last i. induction rs as [|r0 t IH]; intros last i Hi Hi';
    [done |].
  rewrite ffill_cons in Hi'. destruct i as [|i]; simpl in *.
  - injection Hi as ->. injection Hi' as <-.
    destruct (isna (row_get r col)); [| done].
    destruct last; [by rewrite lookup_insert_ne | done].
  - by eapply IH.
Qed.

(** While the cells stay blank, the value carried down is the one in hand. *)
Lemma ffill_run col w rs j r' :
  (∀ k r, (k ≤ j)%nat → rs !! k = Some r → isna (row_get r col) = true) →
  ffill col (Some w) rs !! j = Some r' →
  row_get r' col = w.
Proof.
  revert j. induction rs as [|r0 t IH]; intros j Hblank Hj; [done |].
  rewrite ffill_cons in Hj.
  assert (H0 : isna (row_get r0 col) = true)
    by (apply (Hblank 0%nat r0); [lia | done]).
  rewrite H0 in Hj. destruct j as [|j]; simpl in Hj.
  - injection Hj as <-. apply row_get_insert.
  - apply (IH j); [| done]. intros k r Hk Hr.
    apply (Hblank (S k) r); [lia | done].
Qed.

(** With nothing in hand, blank cells stay blank. *)
Lemma ffill_leading col rs j r :
  (∀ k r, (k ≤ j)%nat → rs !! k = Some r → isna (row_get r col) = true) →
  rs !! j = Some r →
  ffill col None rs !! j = Some r.
Proof.
  revert j. induction rs as [|r0 t IH]; intros j Hblank Hj; [done |].
  rewrite ffill_cons.
  assert (H0 : isna (row_get r0 col) = true)
    by (apply (Hblank 0%nat r0); [lia | done]).
  rewrite H0. destruct j as [|j]; simpl in *; [done |].
  apply IH; [| done]. intros k r' Hk Hr.
  apply (Hblank (S k) r'); [lia | done].
Qed.

Lemma ffill_nearest col last rs i j r r' :
  (i < j)%nat →
  rs !! i = Some r → isna (row_get r col) = false →
  (∀ k r'', (i < k ≤ j)%nat → rs !! k = Some r'' →
            isna (row_get r'' col) = true) →
  ffill col last rs !! j = Some r' →
  row_get r' col = row_get r col.
Proof.
  revert last i j. induction rs as [|r0 t IH]; intros last i j Hij Hi Hr Hblank Hj;
    [done |].
  rewrite ffill_cons in Hj. destruct j as [|j]; [lia |]. simpl in Hj.
  destruct i as [|i]; simpl in Hi.
  - injection Hi as ->. rewrite Hr in Hj.
    apply (ffill_run col (row_get r col) t j); [| done].
    intros k r'' Hk Hk'. apply (Hblank (S k) r''); [lia | done].
  - eapply (IH _ i j); [lia | exact Hi | exact Hr | | exact Hj].
    intros k r'' Hk Hk'. apply (Hblank (S k) r''); [lia | done].
Qed.

(** Forward fill of one column: the number of rows and every other column
    are kept, a cell holding a value is left alone, a blank cell takes the
    value of the nearest row above that holds one, and blank cells above the
    first value stay blank. *)
Theorem ffill_carries_down (col : string) (rs : list (gmap string cell)) :
  length (ffill col None rs) = length rs
  ∧ (∀ i r, rs !! i = Some r → isna (row_get r col) = false →
       ffill col None rs !! i = Some r)
  ∧ (∀ i r r' k, k ≠ col → rs !! i = Some r →
       ffill col None rs !! i = Some r' → r' !! k = r !! k)
  ∧ (∀ i j r r', (i < j)%nat →
       rs !! i = Some r → isna (row_get r col) = false →
       (∀ k r'', (i < k ≤ j)%nat → rs !! k = Some r'' →
                 isna (row_get r'' col) = true) →
       ffill col None rs !! j = Some r' →
       row_get r' col = row_get r col)
  ∧ (∀ j r,
       (∀ k r', (k ≤ j)%nat → rs !! k = Some r' →
                isna (row_get r' col) = true) →
       rs !! j = Some r → ffill col None rs !! j = Some r).
Proof.
  split; [apply ffill_length |]. split; [apply ffill_keeps |].
  split; [intros i r r' k; apply ffill_other |].
  split; [apply ffill_nearest | apply ffill_leading].
Qed.
End ForwardFill.

Section Grouping.
Import Py ExcelToProducts.

(** The number of variations held by all products together. *)
Definition total_variations (ps : list (string * parent)) : nat :=
  sum_list (map (λ kp, length (variations kp.2)) ps).

(** The rows that carry a reference after [str(...).strip()]. *)
Definition referenced (rs : list (gmap string cell)) : list (gmap string cell) :=
  filter (λ r, text_of r "reference" ≠ "") rs.

Lemma total_variations_app ps qs :
  total_variations (ps ++ qs) = (total_variations ps + total_variations qs)%nat.
Proof.
  unfold total_variations. induction ps as [|kp ps IH]; simpl; [done |].
  rewrite IH. lia.
Qed.

Lemma has_ref_elem ps ref : has_ref ps ref = true ↔ ref ∈ map fst ps.
Proof.
  unfold has_ref. induction ps as [|[k p] ps IH]; simpl.
  - split; [done | by intros ?%elem_of_nil].
  - rewrite orb_true_iff, IH, elem_of_cons.
    destruct (String.eqb_spec k ref) as [->|Hne]; [tauto |].
    split; [intros [?|?]; [done | tauto] | intros [?|?]; [congruence | tauto]].
Qed.

Lemma append_variation_keys ps ref v :
  map fst (append_variation ps ref v) = map fst ps.
Proof.
  induction ps as [|[k p] ps IH]; [done |]. simpl.
  destruct (String.eqb k ref); simpl; [done | by rewrite IH].
Qed.

Lemma append_variation_total ps ref v :
  ref ∈ map fst ps →
  total_variations (append_variation ps ref v) = S (total_variations ps).
Proof.
  unfold total_variations. induction ps as [|[k p] ps IH]; simpl.
  - by intros ?%elem_of_nil.
  - intros Hin. destruct (String.eqb_spec k ref) as [->|Hne]; simpl.
    + rewrite length_app. simpl. lia.
    + apply elem_of_cons in Hin as [?|Hin]; [congruence |].
      rewrite (IH Hin). lia.
Qed.

Lemma append_variation_refs ps ref v :
  Forall (λ kp, kp.1 ≠ "" ∧ referenceString kp.2 = kp.1) ps →
  Forall (λ kp, kp.1 ≠ "" ∧ referenceString kp.2 = kp.1)
         (append_variation ps ref v).
Proof.
  induction 1 as [|[k p] ps Hk Hps IH]; simpl; [constructor |].
  destruct (String.eqb k ref); constructor; done.
Qed.

Lemma append_variation_nonempty ps ref v :
  NoDup (map fst ps) →
  Forall (λ kp, kp.1 ≠ ref → variations kp.2 ≠ []) ps →
  Forall (λ kp, variations kp.2 ≠ []) (append_variation ps ref v).
Proof.
  induction ps as [|[k p] ps IH]; simpl; intros Hnd Hall; [constructor |].
  apply NoDup_cons in Hnd as [Hk Hnd]. apply Forall_cons in Hall as [Hp Hall].
  destruct (String.eqb_spec k ref) as [->|Hne].
  - constructor; [simpl; by destruct (variations p) |].
    apply Forall_forall. intros [k' p'] Hin. simpl.
    rewrite Forall_forall in Hall. apply (Hall (k', p') Hin). simpl.
    intros ->. apply Hk. apply list_elem_of_fmap. by exists (ref, p').
  - constructor; [by apply Hp | by apply IH].
Qed.

(** What the loop keeps true of [products]. *)
Definition grouped (ps : list (string * parent)) : Prop :=
  NoDup (map fst ps)
  ∧ Forall (λ kp, kp.1 ≠ "" ∧ referenceString kp.2 = kp.1) ps
  ∧ Forall (λ kp, variations kp.2 ≠ []) ps.

Lemma group_step_grouped ps r ps' :
  grouped ps → group_step ps r = Ok ps' →
  grouped ps'
  ∧ total_variations ps' = (total_variations ps + length (referenced [r]))%nat
  ∧ (∀ ref, ref ∈ map fst ps' ↔
            ref ∈ map fst ps ∨ (ref = text_of r "reference" ∧ ref ≠ "")).
Proof.
  intros (Hnd & Hrefs & Hvars). unfold group_step, referenced.
  destruct (String.eqb_spec (text_of r "reference") "") as [E|E].
  - intros [= <-]. rewrite filter_cons_False by tauto. simpl.
    split; [done |]. split; [lia |]. intros ref. split; [tauto |].
    intros [?|[-> ?]]; [done | congruence].
  - rewrite filter_cons_True by done. simpl.
    destruct (build_variation r) as [v|e]; [| done]. intros [= <-].
    set (ref := text_of r "reference") in *.
    set (np := new_parent (text_of r "product_name") ref
                 (text_of r "category_name")).
    destruct (has_ref ps ref) eqn:Hh.
    + apply has_ref_elem in Hh.
      split; [| split].
      * split; [by rewrite append_variation_keys |].
        split; [by apply append_variation_refs |].
        apply append_variation_nonempty; [done |].
        eapply Forall_impl; [exact Hvars | done].
      * rewrite append_variation_total by done. lia.
      * intros k. rewrite append_variation_keys. split; [tauto |].
        intros [?|[-> _]]; done.
    + assert (Hnot : ref ∉ map fst ps).
      { intros Hin. apply has_ref_elem in Hin. congruence. }
      assert (Hnd' : NoDup (map fst (ps ++ [(ref, np)]))).
      { rewrite map_app. simpl. apply NoDup_app. split; [done |].
        split; [| apply NoDup_singleton].
        intros k Hk ->%list_elem_of_singleton. done. }
      assert (Hin' : ref ∈ map fst (ps ++ [(ref, np)])).
      { rewrite map_app. apply elem_of_app. right. simpl. apply list_elem_of_here. }
      split; [| split].
      * split; [by rewrite append_variation_keys |].
        split.
        -- apply append_variation_refs. apply Forall_app. split; [done |].
           constructor; [done | constructor].
        -- apply append_variation_nonempty; [done |].
           apply Forall_app. split.
           ++ eapply Forall_impl; [exact Hvars | done].
           ++ constructor; [done | constructor].
      * rewrite append_variation_total by done.
        rewrite total_variations_app. unfold total_variations at 2. simpl. lia.
      * intros k. rewrite append_variation_keys, map_app, elem_of_app. simpl.
        rewrite list_elem_of_singleton. split; [| tauto].
        intros [? | ->]; [tauto | by right].
Qed.

Lemma referenced_cons r rs : referenced (r :: rs) = referenced [r] ++ referenced rs.
Proof.
  unfold referenced. by rewrite (filter_app _ [r] rs).
Qed.

Lemma group_rows_grouped rs ps ps' :
  grouped ps → group_rows ps rs = Ok ps' →
  grouped ps'
  ∧ total_variations ps' = (total_variations ps + length (referenced rs))%nat
  ∧ (∀ ref, ref ∈ map fst ps' ↔
            ref ∈ map fst ps
            ∨ (ref ≠ "" ∧ ∃ r, r ∈ rs ∧ text_of r "reference" = ref)).
Proof.
  revert ps. induction rs as [|r rs IH]; intros ps Hg; simpl.
  - intros [= <-]. split; [done |]. split; [simpl; lia |].
    intros ref. split; [tauto |]. intros [?|(_ & r & Hr & _)]; [done |].
    by apply elem_of_nil in Hr.
  - destruct (group_step ps r) as [ps1|e] eqn:E; [| done]. simpl.
    intros Hrun.
    destruct (group_step_grouped ps r ps1 Hg E) as (Hg1 & Ht1 & Hk1).
    destruct (IH ps1 Hg1 Hrun) as (Hg' & Ht' & Hk').
    split; [done |]. split.
    + rewrite Ht', Ht1, (referenced_cons r rs), length_app. lia.
    + intros ref. rewrite Hk', Hk1. split.
      * intros [[?|[-> Hne]]|(Hne & r' & Hr' & Hx)]; [tauto | |].
        -- right. split; [done |]. exists r. split; [apply list_elem_of_here | done].
        -- right. split; [done |]. exists r'.
           split; [by apply list_elem_of_further | done].
      * intros [?|(Hne & r' & Hr' & Hx)]; [tauto |].
        apply elem_of_cons in Hr' as [->|Hr'].
        -- left. right. split; [done | done].
        -- right. split; [done |]. by exists r'.
Qed.

(** Grouping accounts for every row: in the [products] dict the references
    are distinct and none is empty, every product carries its key as
    [referenceString] and has at least one variation, the variations of all
    products together are as many as the rows with a reference, and the keys
    are exactly the references that occur. *)
Theorem group_rows_accounting rs ps :
  group_rows [] rs = Ok ps →
  NoDup (map fst ps)
  ∧ Forall (λ kp, kp.1 ≠ "" ∧ referenceString kp.2 = kp.1
                  ∧ variations kp.2 ≠ []) ps
  ∧ total_variations ps = length (referenced rs)
  ∧ (∀ ref, ref ∈ map fst ps ↔
            ref ≠ "" ∧ ∃ r, r ∈ rs ∧ text_of r "reference" = ref).
Proof.
  intros Hrun.
  assert (Hg0 : grouped []).
  { split; [constructor |]. split; constructor. }
  destruct (group_rows_grouped rs [] ps Hg0 Hrun)
    as ((Hnd & Hrefs & Hvars) & Ht & Hk).
  split; [done |]. split.
  - rewrite Forall_forall in Hrefs, Hvars. apply Forall_forall.
    intros kp Hin. destruct (Hrefs kp Hin). split; [done |]. split; [done |].
    by apply Hvars.
  - split; [exact Ht |]. intros ref. rewrite Hk. split; [| tauto].
    intros [?%elem_of_nil|?]; done.
Qed.

Lemma group_rows_accounting_witness :
  ∃ ps,
    group_rows []
      (rows (ref_size_frame [(PStr "1.1", PStr "S"); (PStr "1.1", PStr "M");
                             (PStr "1.2", PStr "L")])) = Ok ps
    ∧ NoDup (map fst ps)
    ∧ total_variations ps
      = length (referenced
                  (rows (ref_size_frame [(PStr "1.1", PStr "S");
                                         (PStr "1.1", PStr "M");
                                         (PStr "1.2", PStr "L")]))).
Proof.
  destruct (group_rows []
              (rows (ref_size_frame [(PStr "1.1", PStr "S");
                                     (PStr "1.1", PStr "M");
                                     (PStr "1.2", PStr "L")])))
    as [ps|e] eqn:E; [| vm_compute in E; discriminate E].
  exists ps. split; [reflexivity |].
  destruct (group_rows_accounting _ ps E) as (Hnd & _ & Ht & _).
  split; [exact Hnd | exact Ht].
Defined.
End Grouping.

Section RenameInvariant.
Import Py Re ExcelToProducts.

Lemma dict_set_Forall (P : string * string → Prop) d k v :
  Forall P d → P (k, v) → Forall P (dict_set d k v).
Proof.
  intros Hd Hkv. induction Hd as [|[k' v'] d Hh Hd IH]; simpl.
  - by constructor.
  - destruct (String.eqb_spec k' k) as [->|_]; constructor; done.
Qed.

Lemma dict_set_values d k v x :
  x ∈ map snd (dict_set d k v) → x = v ∨ x ∈ map snd d.
Proof.
  induction d as [|[k' v'] d IH]; simpl.
  - intros ->%list_elem_of_singleton. by left.
  - destruct (String.eqb k' k); simpl; rewrite !elem_of_cons; [tauto |].
    intros [->|H]; [tauto |]. destruct (IH H); tauto.
Qed.

Lemma dict_set_has d k v : v ∈ map snd (dict_set d k v).
Proof.
  induction d as [|[k' v'] d IH]; simpl; [apply list_elem_of_here |].
  destruct (String.eqb k' k); simpl;
    [apply list_elem_of_here | by apply list_elem_of_further].
Qed.

Lemma dict_set_keeps d k v x :
  x ∈ map snd d → x ∈ map snd (dict_set d k v) ∨ k ∈ map fst d.
Proof.
  induction d as [|[k' v'] d IH]; simpl; [by intros ?%elem_of_nil |].
  destruct (String.eqb_spec k' k) as [->|_]; simpl; rewrite !elem_of_cons.
  - tauto.
  - intros [->|H]; [tauto |]. destruct (IH H); tauto.
Qed.

Lemma dict_set_fresh_keeps d k v x :
  k ∉ map fst d → x ∈ map snd d → x ∈ map snd (dict_set d k v).
Proof. intros Hk Hx. by destruct (dict_set_keeps d k v x Hx). Qed.

Lemma dict_set_NoDup_values d k v :
  NoDup (map snd d) → v ∉ map snd d → NoDup (map snd (dict_set d k v)).
Proof.
  induction d as [|[k' v'] d IH]; simpl; intros Hnd Hv.
  - apply NoDup_singleton.
  - apply NoDup_cons in Hnd as [Hv' Hnd].
    apply not_elem_of_cons in Hv as [Hne Hv].
    destruct (String.eqb k' k); simpl; apply NoDup_cons.
    + done.
    + split; [| by apply IH].
      intros [->|H]%dict_set_values; done.
Qed.

Lemma dict_set_keys d k v x :
  x ∈ map fst (dict_set d k v) ↔ x = k ∨ x ∈ map fst d.
Proof.
  induction d as [|[k' v'] d IH]; simpl.
  - rewrite list_elem_of_singleton. split; [tauto |].
    intros [?|?%elem_of_nil]; done.
  - destruct (String.eqb_spec k' k) as [->|_]; simpl; rewrite !elem_of_cons.
    + tauto.
    + rewrite IH. tauto.
Qed.

Lemma dict_set_NoDup_keys d k v :
  NoDup (map fst d) → NoDup (map fst (dict_set d k v)).
Proof.
  induction d as [|[k' v'] d IH]; simpl; intros Hnd.
  - apply NoDup_singleton.
  - apply NoDup_cons in Hnd as [Hk' Hnd].
    destruct (String.eqb_spec k' k) as [->|Hne]; simpl; apply NoDup_cons.
    + done.
    + split; [| by apply IH]. rewrite dict_set_keys. intros [?|?]; done.
Qed.

Lemma keys_of_nil_iff d canon : keys_of d canon = [] ↔ canon ∉ map snd d.
Proof.
  induction d as [|[k v] d IH]; [split; [intros _ ?%elem_of_nil; done | done] |].
  rewrite keys_of_cons. simpl. rewrite not_elem_of_cons.
  destruct (decide (v = canon)) as [->|Hne].
  - split; [done | tauto].
  - rewrite IH. split; [by split | tauto].
Qed.

(** What the renaming loop keeps true of [rename]. *)
Definition one_to_one (columns : list string) (rename : list (string * string))
  : Prop :=
  NoDup (map fst rename) ∧ NoDup (map snd rename)
  ∧ Forall (λ kv, kv.1 ∈ columns ∧ match_header kv.1 = Some kv.2) rename.

Lemma filter_values_NoDup (d : list (string * string)) canon :
  NoDup (map snd d) → NoDup (map snd (filter (λ kv, kv.2 ≠ canon) d)).
Proof.
  induction d as [|[k v] d IH]; simpl; intros Hnd; [constructor |].
  apply NoDup_cons in Hnd as [Hv Hnd]. rewrite filter_cons. simpl.
  destruct (decide (v ≠ canon)); [| by apply IH].
  simpl. apply NoDup_cons. split; [| by apply IH].
  intros (kv & -> & Hin)%list_elem_of_fmap.
  apply list_elem_of_filter in Hin as [_ Hin].
  apply Hv. apply list_elem_of_fmap. by exists kv.
Qed.

Lemma filter_keys_NoDup (d : list (string * string)) canon :
  NoDup (map fst d) → NoDup (map fst (filter (λ kv, kv.2 ≠ canon) d)).
Proof.
  induction d as [|[k v] d IH]; simpl; intros Hnd; [constructor |].
  apply NoDup_cons in Hnd as [Hv Hnd]. rewrite filter_cons. simpl.
  destruct (decide (v ≠ canon)); [| by apply IH].
  simpl. apply NoDup_cons. split; [| by apply IH].
  intros (kv & -> & Hin)%list_elem_of_fmap.
  apply list_elem_of_filter in Hin as [_ Hin].
  apply Hv. apply list_elem_of_fmap. by exists kv.
Qed.

Lemma filter_values (d : list (string * string)) canon x :
  x ∈ map snd (filter (λ kv, kv.2 ≠ canon) d) ↔ x ≠ canon ∧ x ∈ map snd d.
Proof.
  rewrite !list_elem_of_fmap. split.
  - intros (kv & -> & [Hne Hin]%list_elem_of_filter). split; [done | by exists kv].
  - intros (Hne & kv & -> & Hin). exists kv. split; [done |].
    by apply list_elem_of_filter.
Qed.

Lemma rename_step_one_to_one columns rename c :
  c ∈ columns → one_to_one columns rename →
  one_to_one columns (rename_step rename c)
  ∧ (∀ x, x ∈ map snd rename → x ∈ map snd (rename_step rename c))
  ∧ (∀ canon, match_header c = Some canon →
              canon ∈ map snd (rename_step rename c)).
Proof.
  intros Hc (Hk & Hv & Hall). unfold rename_step.
  destruct (match_header c) as [canon|] eqn:Hm; [| by split].
  destruct (keys_of rename canon) as [|existing_col others] eqn:Hkeys.
  - apply keys_of_nil_iff in Hkeys.
    split; [| split].
    + split; [by apply dict_set_NoDup_keys |].
      split; [by apply dict_set_NoDup_values |].
      by apply dict_set_Forall.
    + intros x Hx. destruct (dict_set_keeps rename c canon x Hx) as [?|Hin];
        [done |].
      apply list_elem_of_fmap in Hin as ([k v] & -> & Hin).
      rewrite Forall_forall in Hall. destruct (Hall _ Hin) as [_ Hmk].
      simpl in *. assert (v = canon) as -> by congruence.
      exfalso. apply Hkeys. apply list_elem_of_fmap. by exists (k, canon).
    + intros ? [= <-]. apply dict_set_has.
  - assert (Hin : canon ∈ map snd rename).
    { destruct (decide (canon ∈ map snd rename)) as [?|Hn]; [done |].
      apply keys_of_nil_iff in Hn. congruence. }
    destruct (_ || _).
    + split; [| split].
      * split; [by apply dict_set_NoDup_keys, filter_keys_NoDup |].
        split.
        -- apply dict_set_NoDup_values; [by apply filter_values_NoDup |].
           rewrite filter_values. tauto.
        -- apply dict_set_Forall; [| done].
           apply Forall_forall. intros kv [_ Hkv]%list_elem_of_filter.
           rewrite Forall_forall in Hall. by apply Hall.
      * intros x Hx. destruct (decide (x = canon)) as [->|Hne];
          [apply dict_set_has |].
        assert (Hx' : x ∈ map snd (filter (λ kv, kv.2 ≠ canon) rename))
          by (by apply filter_values).
        destruct (dict_set_keeps _ c canon x Hx') as [?|Hck]; [done |].
        apply list_elem_of_fmap in Hck as ([k v] & -> & Hkv).
        apply list_elem_of_filter in Hkv as [Hvne Hkv]. simpl in Hvne.
        rewrite Forall_forall in Hall. destruct (Hall _ Hkv) as [_ Hmk].
        simpl in *. congruence.
      * intros ? [= <-]. apply dict_set_has.
    + split; [done |]. split; [done |]. by intros ? [= <-].
Qed.

Lemma foldl_rename_one_to_one columns cs rename :
  (∀ c, c ∈ cs → c ∈ columns) → one_to_one columns rename →
  one_to_one columns (foldl rename_step rename cs)
  ∧ (∀ x, x ∈ map snd rename → x ∈ map snd (foldl rename_step rename cs))
  ∧ (∀ c canon, c ∈ cs → match_header c = Some canon →
                canon ∈ map snd (foldl rename_step rename cs)).
Proof.
  revert rename. induction cs as [|c cs IH]; intros rename Hsub Hinv; simpl.
  - split; [done |]. split; [done |]. by intros c canon ?%elem_of_nil.
  - destruct (rename_step_one_to_one columns rename c) as (H1 & H2 & H3);
      [apply Hsub, list_elem_of_here | done |].
    destruct (IH (rename_step rename c)) as (I1 & I2 & I3);
      [intros c' Hc'; by apply Hsub, list_elem_of_further | done |].
    split; [done |]. split; [by intros x Hx; apply I2, H2 |].
    intros c' canon [->|Hc']%elem_of_cons Hm.
    + by apply I2, H3.
    + by eapply I3.
Qed.

(** The column mapping is one to one: no raw header is mapped twice, no
    canonical name is taken by two headers, every pair is a column of the
    sheet with the canonical name [match_header] gives it, and every
    canonical name matched by some column is taken by one. *)
Theorem build_rename_one_to_one (columns : list string) :
  NoDup (map fst (build_rename columns))
  ∧ NoDup (map snd (build_rename columns))
  ∧ Forall (λ kv, kv.1 ∈ columns ∧ match_header kv.1 = Some kv.2)
           (build_rename columns)
  ∧ ∀ c, c ∈ columns →
      match match_header c with
      | Some canon => canon ∈ map snd (build_rename columns)
      | None => c ∉ map fst (build_rename columns)
      end.
Proof.
  unfold build_rename.
  destruct (foldl_rename_one_to_one columns columns [])
    as ((Hk & Hv & Hall) & _ & Hcov); [done | |].
  { split; [constructor |]. split; constructor. }
  split; [done |]. split; [done |]. split; [done |].
  intros c Hc. destruct (match_header c) as [canon|] eqn:Hm.
  - by eapply Hcov.
  - intros ([k v] & -> & Hin)%list_elem_of_fmap.
    rewrite Forall_forall in Hall. destruct (Hall _ Hin) as [_ Hmk].
    simpl in *. congruence.
Qed.
End RenameInvariant.

Section HeaderCase.
Import Py Re ExcelToProducts.

Lemma upper_keeps_space a : is_space (upper_char a) = is_space a.
Proof. by destruct a as [[] [] [] [] [] [] [] []]. Qed.

Lemma lower_keeps_space a : is_space (lower_char a) = is_space a.
Proof. by destruct a as [[] [] [] [] [] [] [] []]. Qed.

Lemma lower_upper_char a : lower_char (upper_char a) = lower_char a.
Proof. by destruct a as [[] [] [] [] [] [] [] []]. Qed.

Lemma lower_lower_char a : lower_char (lower_char a) = lower_char a.
Proof. by destruct a as [[] [] [] [] [] [] [] []]. Qed.

(** A character map that keeps blanks blank and the space a space commutes
    with whitespace collapsing and with stripping. *)
Lemma collapse_ws_map (f : ascii → ascii) b l :
  (∀ a, is_space (f a) = is_space a) → f " "%char = " "%char →
  collapse_ws b (map f l) = map f (collapse_ws b l).
Proof.
  intros Hf Hsp. revert b. induction l as [|a l IH]; intros b; [done |].
  simpl. rewrite Hf. destruct (is_space a).
  - destruct b; simpl; by rewrite ?Hsp, IH.
  - simpl. by rewrite IH.
Qed.

Lemma lstrip_map (f : ascii → ascii) l :
  (∀ a, is_space (f a) = is_space a) →
  lstrip_chars (map f l) = map f (lstrip_chars l).
Proof.
  intros Hf. induction l as [|a l IH]; [done |]. simpl. rewrite Hf.
  by destruct (is_space a).
Qed.

Lemma strip_chars_map (f : ascii → ascii) l :
  (∀ a, is_space (f a) = is_space a) →
  strip_chars (map f l) = map f (strip_chars l).
Proof.
  intros Hf. unfold strip_chars.
  by rewrite (lstrip_map f l Hf), <- map_rev, (lstrip_map f _ Hf), map_rev.
Qed.

Lemma normalize_header_map (f : ascii → ascii) h :
  (∀ a, is_space (f a) = is_space a) → f " "%char = " "%char →
  (∀ a, lower_char (f a) = lower_char a) →
  normalize_header (of_chars (map f (chars h))) = normalize_header h.
Proof.
  intros Hf Hsp Hlow. unfold normalize_header, lower, strip.
  rewrite !chars_of_chars, (collapse_ws_map f false _ Hf Hsp),
    (strip_chars_map f _ Hf), map_map.
  f_equal. apply map_ext. intros a. apply Hlow.
Qed.

(** Header matching does not depend on letter case: a header, its
    upper-case and its lower-case form get the same canonical name. *)
Theorem match_header_ignores_case (h : string) :
  match_header (upper h) = match_header h
  ∧ match_header (lower h) = match_header h.
Proof.
  unfold match_header, upper, lower. split; f_equal.
  - apply normalize_header_map;
      [apply upper_keeps_space | reflexivity | apply lower_upper_char].
  - apply normalize_header_map;
      [apply lower_keeps_space | reflexivity | apply lower_lower_char].
Qed.
End HeaderCase.

Section MergerMore.
Import Py Obj SlidesToJsonMerger.

Lemma value_ok_insert (h : gmap positive object) m o v :
  h !! m = None → value_ok h v → value_ok (<[m := o]> h) v.
Proof.
  intros Hm. destruct v as [| | | |l]; simpl; try done.
  intros [x Hx]. exists x. rewrite lookup_insert_ne; [done |]. congruence.
Qed.

Lemma is_dict_insert (h : gmap positive object) m o v :
  h !! m = None → value_ok h v → is_dict (<[m := o]> h) v = is_dict h v.
Proof.
  intros Hm. destruct v as [| | | |l]; simpl; try done.
  intros [x Hx]. rewrite lookup_insert_ne; [done |]. congruence.
Qed.

Lemma as_dict_insert (h : gmap positive object) m o v :
  h !! m = None → value_ok h v → as_dict (<[m := o]> h) v = as_dict h v.
Proof.
  intros Hm. destruct v as [| | | |l]; simpl; try done.
  intros [x Hx]. rewrite lookup_insert_ne; [done |]. congruence.
Qed.

Lemma meaningful_insert (h : gmap positive object) m o d :
  h !! m = None → (∀ k v, d !! k = Some v → value_ok h v) →
  meaningful (<[m := o]> h) d = meaningful h d.
Proof.
  intros Hm Hd. unfold meaningful.
  assert (Hall : Forall (λ kv : string * value, value_ok h kv.2) (map_to_list d)).
  { apply Forall_forall. intros [k v] Hin. apply elem_of_map_to_list in Hin.
    by apply (Hd k v). }
  induction Hall as [|kv l Hkv _ IH]; [done |]. simpl.
  by rewrite IH, !(truthy_insert h m o kv.2 Hm Hkv).
Qed.

(** Merging loses nothing: a mergeable field of the result is truthy
    exactly when it was truthy in the record or in the slide data. *)
Theorem merge_keeps_data h sp ep ed sd :
  closed h → inputs h sp ep ed sd →
  ∃ h' m md,
    merge_slide_data h sp ep = Ok (h', m)
    ∧ h' !! m = Some (ODict md)
    ∧ ∀ f, f ∈ fields_to_merge →
        truthy h' (get md f) = truthy h (get ed f) || truthy h (get sd f).
Proof.
  intros Hc Hin.
  destruct (merge_slide_data_spec h sp ep ed sd Hc Hin) as (md & Hrun & Hk).
  destruct Hin as (Hep & pd & sl & Hsp & Hdata & Hsl).
  pose proof (fresh_unused h) as Hm.
  eexists _, _, md. split; [exact Hrun |]. split; [apply lookup_insert_eq |].
  intros f Hf.
  assert (Hed : value_ok h (get ed f)).
  { apply get_ok. intros k v Hv. by apply (Hc ep (ODict ed) Hep k v). }
  assert (Hsd : value_ok h (get sd f)).
  { apply get_ok. intros k v Hv. by apply (Hc sl (ODict sd) Hsl k v). }
  unfold get at 1. rewrite Hk, (bool_decide_eq_true_2 _ Hf).
  destruct (truthy h (get ed f)) eqn:Et; simpl.
  - change (default VNone (ed !! f)) with (get ed f).
    by rewrite truthy_insert.
  - destruct (truthy h (get sd f)) eqn:Es; simpl.
    + by rewrite truthy_insert.
    + change (default VNone (ed !! f)) with (get ed f).
      by rewrite truthy_insert.
Qed.

Lemma merge_keeps_data_witness :
  closed (description_heap "") ∧
  ∃ ed sd, inputs (description_heap "") 2 1 ed sd ∧
  ∃ h' m md,
    merge_slide_data (description_heap "") 2 1 = Ok (h', m)
    ∧ h' !! m = Some (ODict md)
    ∧ ∀ f, f ∈ fields_to_merge →
        truthy h' (get md f)
        = truthy (description_heap "") (get ed f)
          || truthy (description_heap "") (get sd f).
Proof.
  assert (Hc : closed (description_heap "")).
  { apply (bool_decide_unpack (closed (description_heap ""))).
    vm_compute. exact I. }
  assert (Hin : inputs (description_heap "") 2 1
            (<["referenceString" := VStr "4.1.1"]>
               (<["name" := VStr "Syringe"]> (<["description" := VStr ""]> ∅)))
            (<["referenceString" := VStr "4.1.1"]>
               (<["description" := VStr "New"]> ∅))).
  { split; [vm_compute; reflexivity |]. eexists _, 3%positive.
    split; [vm_compute; reflexivity |].
    split; vm_compute; reflexivity. }
  split; [exact Hc |]. eexists _, _. split; [exact Hin |].
  exact (merge_keeps_data _ _ _ _ _ Hc Hin).
Defined.
End MergerMore.

Section MergerCompleteness.
Import Py Obj SlidesToJsonMerger.

Lemma is_missing_insert (h : gmap positive object) m o pd f :
  h !! m = None → closed h → value_ok h (get pd f) →
  is_missing (<[m := o]> h) pd f = is_missing h pd f.
Proof.
  intros Hm Hc Hv. unfold is_missing.
  rewrite (truthy_insert h m o _ Hm Hv), (is_dict_insert h m o _ Hm Hv),
    (as_dict_insert h m o _ Hm Hv).
  destruct (negb (truthy h (get pd f))); [done |].
  destruct (String.eqb f "PackagingInformation" && is_dict h (get pd f));
    [| done].
  destruct (as_dict h (get pd f)) as [d|e] eqn:Ed; [| done].
  apply as_dict_ok in Ed as (l & _ & Hl).
  rewrite meaningful_insert; [done | done |].
  intros k v Hkv. by apply (Hc l (ODict d) Hl k v).
Qed.

(** Merging never makes a record less complete: every field reported
    missing for the merged record is reported missing for the record it
    was merged into. *)
Theorem merge_shrinks_missing h sp ep ed sd :
  closed h → inputs h sp ep ed sd →
  ∃ h' m before after,
    merge_slide_data h sp ep = Ok (h', m)
    ∧ check_completeness h ep = Ok before
    ∧ check_completeness h' m = Ok after
    ∧ ∀ f, f ∈ after → f ∈ before.
Proof.
  intros Hc Hin.
  destruct (merge_slide_data_spec h sp ep ed sd Hc Hin) as (md & Hrun & Hk).
  destruct Hin as (Hep & pd & sl & Hsp & Hdata & Hsl).
  pose proof (fresh_unused h) as Hm.
  eexists _, _, _, _. split; [exact Hrun |].
  unfold check_completeness.
  rewrite (as_dict_ref h ep ed Hep),
    (as_dict_ref _ (fresh (dom h)) md (lookup_insert_eq _ _ _)).
  split; [reflexivity |]. split; [reflexivity |].
  intros f [Hmiss Hf]%list_elem_of_filter.
  apply list_elem_of_filter. split; [| done].
  assert (Hed : value_ok h (get ed f)).
  { apply get_ok. intros k v Hv. by apply (Hc ep (ODict ed) Hep k v). }
  destruct (truthy h (get ed f)) eqn:Et.
  - assert (Hsame : get md f = get ed f).
    { unfold get at 1. rewrite Hk, Et. simpl. by rewrite andb_false_r. }
    rewrite <- (is_missing_insert h (fresh (dom h)) (ODict md) ed f Hm Hc Hed).
    unfold is_missing in *. by rewrite <- Hsame.
  - unfold is_missing. by rewrite Et.
Qed.

(** Merging the same slide a second time changes nothing: the second
    result holds the same entries as the first. *)
Theorem merge_twice_same h sp ep ed sd :
  closed h → inputs h sp ep ed sd →
  ∃ h1 m1 h2 m2 md,
    merge_slide_data h sp ep = Ok (h1, m1)
    ∧ merge_slide_data h1 sp m1 = Ok (h2, m2)
    ∧ h1 !! m1 = Some (ODict md)
    ∧ h2 !! m2 = Some (ODict md).
Proof.
  intros Hc Hin.
  destruct (merge_slide_data_spec h sp ep ed sd Hc Hin) as (md & Hrun & Hk).
  pose proof Hin as (Hep & pd & sl & Hsp & Hdata & Hsl).
  pose proof (fresh_unused h) as Hm.
  set (m1 := fresh (dom h)) in *. set (h1 := <[m1 := ODict md]> h) in *.
  assert (Hne : ∀ l o, h !! l = Some o → h1 !! l = Some o).
  { intros l o Hl. unfold h1. rewrite lookup_insert_ne; [done |]. congruence. }
  assert (Hedok : ∀ k v, ed !! k = Some v → value_ok h v)
    by (intros k v Hv; by apply (Hc ep (ODict ed) Hep k v)).
  assert (Hsdok : ∀ k v, sd !! k = Some v → value_ok h v)
    by (intros k v Hv; by apply (Hc sl (ODict sd) Hsl k v)).
  assert (Hmdok : ∀ k v, md !! k = Some v → value_ok h v).
  { intros k v. rewrite Hk. destruct (_ && _).
    - intros [= <-]. by apply get_ok.
    - apply Hedok. }
  assert (Hc1 : closed h1).
  { intros l o Hl. unfold h1 in Hl.
    destruct (decide (m1 = l)) as [<-|Hml].
    - rewrite lookup_insert_eq in Hl. injection Hl as <-.
      intros k v Hv. apply value_ok_insert; [done | by eapply Hmdok].
    - rewrite lookup_insert_ne in Hl by done.
      pose proof (Hc l o Hl) as Ho. destruct o as [d|vs]; simpl in *.
      + intros k v Hv. apply value_ok_insert; [done | by apply (Ho k v)].
      + eapply Forall_impl; [exact Ho |]. intros v. by apply value_ok_insert. }
  assert (Hin1 : inputs h1 sp m1 md sd).
  { split; [apply lookup_insert_eq |]. exists pd, sl.
    split; [by apply Hne |]. split; [done | by apply Hne]. }
  destruct (merge_slide_data_spec h1 sp m1 md sd Hc1 Hin1) as (md2 & Hrun2 & Hk2).
  eexists h1, m1, _, _, md. split; [exact Hrun |]. split; [exact Hrun2 |].
  split; [apply lookup_insert_eq |].
  rewrite lookup_insert_eq. do 2 f_equal. apply map_eq. intros f.
  rewrite Hk2.
  destruct (bool_decide (f ∈ fields_to_merge)) eqn:Ef; [| done]. simpl.
  assert (Hg : get md f = if negb (truthy h (get ed f)) && truthy h (get sd f)
                          then get sd f else get ed f).
  { unfold get at 1. rewrite Hk, Ef. simpl. by destruct (_ && _). }
  assert (Ht1 : ∀ v, value_ok h v → truthy h1 v = truthy h v)
    by (intros v; by apply truthy_insert).
  rewrite !Ht1 by (by apply get_ok).
  rewrite Hg.
  destruct (truthy h (get ed f)) eqn:Et, (truthy h (get sd f)) eqn:Es; simpl;
    rewrite ?Et, ?Es; done.
Qed.

Lemma merger_inputs_example :
  closed (description_heap "") ∧
  inputs (description_heap "") 2 1
    (<["referenceString" := VStr "4.1.1"]>
       (<["name" := VStr "Syringe"]> (<["description" := VStr ""]> ∅)))
    (<["referenceString" := VStr "4.1.1"]>
       (<["description" := VStr "New"]> ∅)).
Proof.
  split.
  - apply (bool_decide_unpack (closed (description_heap ""))).
    vm_compute. exact I.
  - split; [vm_compute; reflexivity |]. eexists _, 3%positive.
    split; [vm_compute; reflexivity |].
    split; vm_compute; reflexivity.
Defined.

Lemma merge_shrinks_missing_witness :
  closed (description_heap "") ∧
  ∃ ed sd, inputs (description_heap "") 2 1 ed sd ∧
  ∃ h' m before after,
    merge_slide_data (description_heap "") 2 1 = Ok (h', m)
    ∧ check_completeness (description_heap "") 1 = Ok before
    ∧ check_completeness h' m = Ok after
    ∧ ∀ f, f ∈ after → f ∈ before.
Proof.
  split; [exact (proj1 merger_inputs_example) |].
  eexists _, _. split; [exact (proj2 merger_inputs_example) |].
  exact (merge_shrinks_missing _ _ _ _ _ (proj1 merger_inputs_example)
           (proj2 merger_inputs_example)).
Defined.

Lemma merge_twice_same_witness :
  closed (description_heap "") ∧
  ∃ ed sd, inputs (description_heap "") 2 1 ed sd ∧
  ∃ h1 m1 h2 m2 md,
    merge_slide_data (description_heap "") 2 1 = Ok (h1, m1)
    ∧ merge_slide_data h1 2 m1 = Ok (h2, m2)
    ∧ h1 !! m1 = Some (ODict md)
    ∧ h2 !! m2 = Some (ODict md).
Proof.
  split; [exact (proj1 merger_inputs_example) |].
  eexists _, _. split; [exact (proj2 merger_inputs_example) |].
  exact (merge_twice_same _ _ _ _ _ (proj1 merger_inputs_example)
           (proj2 merger_inputs_example)).
Defined.
End MergerCompleteness.

Section SlugShape.
Import Py Obj SlugBuilder.

(** The characters a slug is made of. *)
Definition url_char (a : ascii) : bool :=
  is_lower a || is_digit a || (a =? "_")%char || (a =? "-")%char.

Lemma lowered_word_url a :
  is_word (lower_char a) = true → url_char (lower_char a) = true.
Proof. by destruct a as [[] [] [] [] [] [] [] []]. Qed.

Lemma hyphenate_Forall (P : ascii → Prop) b l :
  P "-"%char →
  Forall (λ a, is_hyphen a || is_space a = false → P a) l →
  Forall P (hyphenate b l).
Proof.
  intros Hh Hl. revert b. induction Hl as [|a l Ha Hl IH]; intros b; simpl;
    [constructor |].
  destruct (is_hyphen a || is_space a) eqn:E.
  - destruct b; [apply IH | constructor; [done | apply IH]].
  - constructor; [by apply Ha | apply IH].
Qed.

Lemma lstrip_hyphens_Forall (P : ascii → Prop) l :
  Forall P l → Forall P (lstrip_hyphens l).
Proof.
  induction 1 as [|a l Ha Hl IH]; simpl; [constructor |].
  destruct (is_hyphen a); [done | by constructor].
Qed.

Lemma lstrip_hyphens_head l : head (lstrip_hyphens l) ≠ Some "-"%char.
Proof.
  induction l as [|a l IH]; simpl; [done |].
  destruct (is_hyphen a) eqn:E; [done |]. simpl. intros [= ->]. done.
Qed.

Lemma lstrip_hyphens_suffix l : ∃ pre, l = pre ++ lstrip_hyphens l.
Proof.
  induction l as [|a l [pre IH]]; [by exists [] |]. simpl.
  destruct (is_hyphen a).
  - exists (a :: pre). simpl. by rewrite <- IH.
  - by exists [].
Qed.

Lemma lstrip_hyphens_last l :
  last l ≠ Some "-"%char → last (lstrip_hyphens l) ≠ Some "-"%char.
Proof.
  destruct (lstrip_hyphens_suffix l) as [pre Hpre]. intros Hl Hs.
  apply Hl. rewrite Hpre, last_app, Hs. done.
Qed.

Lemma last_rev {A} (l : list A) : last (rev l) = head l.
Proof. destruct l as [|a l]; [done |]. simpl. apply last_snoc. Qed.

Lemma head_rev {A} (l : list A) : head (rev l) = last l.
Proof. by rewrite <- (rev_involutive l) at 2; rewrite last_rev. Qed.

Lemma slugify_chars text :
  text ≠ "" →
  chars (slugify text)
  = rev (lstrip_hyphens (rev (lstrip_hyphens (hyphenate false
      (filter (λ a, is_word a || is_space a || is_hyphen a = true)
              (map lower_char (chars text))))))).
Proof.
  intros Hne. unfold slugify.
  destruct (String.eqb_spec text "") as [?|_]; [done |].
  apply chars_of_chars.
Qed.

(** A slug is URL-safe: it is made of lower-case letters, digits,
    underscores and hyphens only, and neither starts nor ends with a hyphen;
    the empty text gives the empty slug. *)
Theorem slugify_url_safe (text : string) :
  Forall (λ a, url_char a = true) (chars (slugify text))
  ∧ head (chars (slugify text)) ≠ Some "-"%char
  ∧ last (chars (slugify text)) ≠ Some "-"%char
  ∧ slugify "" = "".
Proof.
  destruct (decide (text = "")) as [->|Hne].
  { split; [constructor |]. split; [done |]. split; done. }
  rewrite (slugify_chars text Hne).
  set (kept := filter _ _). set (body := lstrip_hyphens (hyphenate false kept)).
  split; [| split; [| split; [| reflexivity]]].
  - apply Forall_rev, lstrip_hyphens_Forall, Forall_rev, lstrip_hyphens_Forall.
    apply hyphenate_Forall; [reflexivity |].
    apply Forall_forall. intros a Ha Hsep. unfold kept in Ha.
    apply list_elem_of_filter in Ha as [Hk Ha].
    apply list_elem_of_fmap in Ha as (b & -> & _).
    apply lowered_word_url. apply orb_false_iff in Hsep as [Hh Hs].
    rewrite Hh, Hs, !orb_false_r in Hk. done.
  - rewrite head_rev. apply lstrip_hyphens_last. rewrite last_rev.
    apply lstrip_hyphens_head.
  - rewrite last_rev. apply lstrip_hyphens_head.
Qed.

(** If the loop returns, it returns the first candidate, counting from the
    one it starts with, that is not taken. *)
Lemma unique_loop_first base_slug (existing : gset string) fuel k s :
  unique_loop fuel base_slug existing (candidate base_slug k) (k + 1) = Some s →
  ∃ k', (k ≤ k')%nat ∧ s = candidate base_slug k' ∧ (s ∉ existing)
        ∧ ∀ j, (k ≤ j < k')%nat → candidate base_slug j ∈ existing.
Proof.
  revert k. induction fuel as [|fuel IH]; intros k; rewrite unique_loop_step;
    destruct (decide (candidate base_slug k ∈ existing)) as [Hin|Hout];
    try done.
  - intros [= <-]. exists k. split; [lia |]. split; [done |]. split; [done |].
    intros j Hj. lia.
  - intros H. destruct (IH (S k) H) as (k' & Hk' & -> & Hs & Hall).
    exists k'. split; [lia |]. split; [done |]. split; [done |].
    intros j Hj. destruct (decide (j = k)) as [->|Hne]; [done |].
    apply Hall. lia.
  - intros [= <-]. exists k. split; [lia |]. split; [done |]. split; [done |].
    intros j Hj. lia.
Qed.

(** [base_slug] of [generate_unique_slug] *)
Definition base_of (name : string) : string :=
  if String.eqb (slugify name) "" then "product" else slugify name.

Lemma candidate_not_empty base_slug k : base_slug ≠ "" → candidate base_slug k ≠ "".
Proof.
  intros Hb. destruct k; simpl; [done |]. unfold numbered.
  destruct base_slug; [done |]. rewrite str_app_cons. done.
Qed.

(** [generate_unique_slug] always returns: the base slug when it is free,
    otherwise the base slug with the smallest counter 1, 2, ... that makes it
    free; the slug returned is never empty and never one already taken. *)
Theorem generate_unique_slug_first_free (name : string) (existing : gset string) :
  ∃ k,
    generate_unique_slug name existing = Some (candidate (base_of name) k)
    ∧ (candidate (base_of name) k ∉ existing)
    ∧ candidate (base_of name) k ≠ ""
    ∧ ∀ j, (j < k)%nat → candidate (base_of name) j ∈ existing.
Proof.
  destruct (generate_unique_slug_fresh name existing) as (s & Hrun & Hs).
  pose proof Hrun as Hrun'. unfold generate_unique_slug in Hrun'.
  change (if String.eqb (slugify name) "" then "product" else slugify name)
    with (base_of name) in Hrun'.
  destruct (unique_loop_first (base_of name) existing (size existing) 0 s Hrun')
    as (k & _ & -> & _ & Hall).
  exists k. split; [exact Hrun |]. split; [exact Hs |].
  split.
  - apply candidate_not_empty. unfold base_of.
    destruct (String.eqb_spec (slugify name) ""); done.
  - intros j Hj. apply Hall. lia.
Qed.
End SlugShape.

Section SlugFrame.
Import Py Obj SlugBuilder.


End SlugFrame.

Section CustomRows.
Import Py ExcelToJsonCustom.

(** Every key of a mapping file reads as an integer. *)
Definition numeric_keys (m : list (string * string)) : Prop :=
  Forall (λ kv, ∃ n, py_int kv.1 = Ok n) m.

Lemma find_by_name_key m nm k :
  find_by_name m nm = Some k → ∃ v, (k, v) ∈ m ∧ upper v = upper nm.
Proof.
  induction m as [|[i n] m IH]; simpl; [done |].
  destruct (String.eqb_spec (upper n) (upper nm)) as [E|_].
  - intros [= <-]. exists n. split; [apply list_elem_of_here | done].
  - intros H. destruct (IH H) as (v & Hv & Hu). exists v.
    split; [by apply list_elem_of_further | done].
Qed.

Lemma find_by_name_numeric m nm k :
  numeric_keys m → find_by_name m nm = Some k → ∃ n, py_int k = Ok n.
Proof.
  intros Hm Hf. destruct (find_by_name_key m nm k Hf) as (v & Hin & _).
  unfold numeric_keys in Hm. rewrite Forall_forall in Hm.
  apply (Hm (k, v) Hin).
Qed.

(** One division cell adds exactly one entry, an id or an unresolved name,
    when it is not blank, and nothing when it is. *)
Lemma division_step_counts dm acc division acc' :
  division_step dm acc division = Ok acc' →
  (length acc'.1 + length acc'.2
   = length acc.1 + length acc.2 + (if nonblank division then 1 else 0))%nat
  ∧ (∃ more, acc'.2 = acc.2 ++ more
             ∧ Forall (λ m, m = division ∧ find_by_name dm m = None) more).
Proof.
  unfold division_step. destruct (nonblank division).
  - destruct (find_by_name dm division) as [div_id|] eqn:Ef.
    + destruct (py_int div_id) as [n|e]; [| done]. intros [= <-]. simpl.
      rewrite length_app. simpl. split; [lia |]. exists [].
      by rewrite app_nil_r.
    + assert (Hmiss : ∀ a, a = (acc.1, acc.2 ++ [division]) →
                (length a.1 + length a.2
                 = length acc.1 + length acc.2 + 1)%nat
                ∧ ∃ more, a.2 = acc.2 ++ more
                    ∧ Forall (λ m, m = division ∧ find_by_name dm m = None) more).
      { intros a ->. simpl. rewrite length_app. simpl. split; [lia |].
        exists [division]. split; [done |]. by repeat constructor. }
      destruct (assoc hardcoded_divisions (upper division)) as [div_id|].
      * destruct (div_id =? 0); intros [= <-]; [by apply Hmiss |]. simpl.
        rewrite length_app. simpl. split; [lia |]. exists [].
        by rewrite app_nil_r.
      * intros [= <-]. by apply Hmiss.
  - intros [= <-]. split; [lia |]. exists []. by rewrite app_nil_r.
Qed.

Lemma division_loop_counts dm acc cells acc' :
  division_loop dm acc cells = Ok acc' →
  (length acc'.1 + length acc'.2
   = length acc.1 + length acc.2 + length (filter (λ c, nonblank c = true) cells))%nat
  ∧ (∃ more, acc'.2 = acc.2 ++ more
             ∧ Forall (λ m, m ∈ cells ∧ find_by_name dm m = None) more).
Proof.
  revert acc. induction cells as [|c cells IH]; intros acc; simpl.
  - intros [= <-]. split; [lia |]. exists []. by rewrite app_nil_r.
  - destruct (division_step dm acc c) as [acc1|e] eqn:E; [| done]. simpl.
    intros Hrun.
    destruct (division_step_counts dm acc c acc1 E) as (Hc1 & m1 & Hm1 & Hf1).
    destruct (IH acc1 Hrun) as (Hc2 & m2 & Hm2 & Hf2).
    split.
    + rewrite filter_cons. destruct (nonblank c); simpl; lia.
    + exists (m1 ++ m2). split; [by rewrite Hm2, Hm1, app_assoc |].
      apply Forall_app. split.
      * eapply Forall_impl; [exact Hf1 |]. intros m [-> ?].
        split; [apply list_elem_of_here | done].
      * eapply Forall_impl; [exact Hf2 |]. intros m [? ?].
        split; [by apply list_elem_of_further | done].
Qed.

Lemma division_loop_returns dm acc cells :
  numeric_keys dm → ∃ acc', division_loop dm acc cells = Ok acc'.
Proof.
  intros Hdm. revert acc. induction cells as [|c cells IH]; intros acc; simpl;
    [by eexists |].
  assert (Hstep : ∃ acc1, division_step dm acc c = Ok acc1).
  { unfold division_step. destruct (nonblank c); [| by eexists].
    destruct (find_by_name dm c) as [div_id|] eqn:Ef.
    - destruct (find_by_name_numeric dm c div_id Hdm Ef) as [n ->]. by eexists.
    - destruct (assoc hardcoded_divisions (upper c)) as [d|]; [| by eexists].
      destruct (d =? 0); by eexists. }
  destruct Hstep as [acc1 ->]. simpl. apply IH.
Qed.

(** The three division cells are each accounted for once: every non-blank
    cell yields an id or an unresolved name, a blank cell yields nothing,
    and the unresolved names are cells that the fetched mapping does not
    know. *)
Theorem parse_divisions_accounts d1 d2 d3 dm ids missing :
  parse_divisions d1 d2 d3 dm = Ok (ids, missing) →
  (length ids + length missing
   = length (filter (λ c, nonblank c = true) [d1; d2; d3]))%nat
  ∧ Forall (λ m, m ∈ [d1; d2; d3] ∧ find_by_name dm m = None) missing.
Proof.
  unfold parse_divisions. intros H.
  destruct (division_loop_counts dm ([], []) [d1; d2; d3] (ids, missing) H)
    as (Hc & more & Hm & Hf).
  simpl in Hc, Hm. split; [exact Hc |]. by rewrite Hm.
Qed.

Lemma parse_divisions_accounts_witness :
  parse_divisions "Injection" "" "Cardiology" [("48", "INJECTION")]
  = Ok ([48], ["Cardiology"])
  ∧ (length [48] + length ["Cardiology"]
     = length (filter (λ c, nonblank c = true) ["Injection"; ""; "Cardiology"]))%nat
  ∧ Forall (λ m, m ∈ ["Injection"; ""; "Cardiology"]
                 ∧ find_by_name [("48", "INJECTION")] m = None) ["Cardiology"].
Proof.
  assert (H : parse_divisions "Injection" "" "Cardiology" [("48", "INJECTION")]
              = Ok ([48], ["Cardiology"])) by (vm_compute; reflexivity).
  split; [exact H |].
  exact (parse_divisions_accounts _ _ _ _ _ _ H).
Defined.

Lemma text_cell_present row k :
  is_Some (row !! k) → ∃ s, text_cell row k = Ok s.
Proof. intros [c Hc]. unfold text_cell. rewrite Hc. by eexists. Qed.

(** The six columns [convert_row_to_strapi_format] reads. *)
Definition has_columns (row : gmap string cell) : Prop :=
  Forall (λ k, is_Some (row !! k))
    ["PRODUCTS' CATEGORY"; "Reference"; "PRODUCTS"; "Division"; "Division.1";
     "Division.2"].

(** A row is turned down only for a blank (or "nan") reference or name.
    Every other row yields a product, resolved or not: its category is the
    id [map_category_to_id] gives, 59 included, the flag [has_category] tells
    whether the fetched mapping knew the name, and there is one division
    name per division id. *)
Theorem convert_row_never_skips_unresolved row cm dm :
  has_columns row → numeric_keys cm → numeric_keys dm →
  ∃ cname ref nm o info,
    text_cell row "PRODUCTS' CATEGORY" = Ok cname
    ∧ text_cell row "Reference" = Ok ref
    ∧ text_cell row "PRODUCTS" = Ok nm
    ∧ convert_row_to_strapi_format row cm dm = Ok (o, info)
    ∧ if blank_or_nan ref || blank_or_nan nm
      then o = None ∧ info = ValidationInfo false false None [] None
      else ∃ p, o = Some p
             ∧ name p = nm ∧ referenceString p = ref
             ∧ map_category_to_id cname cm = Ok (category p, has_category info)
             ∧ missing_category_id info
               = (if has_category info then None else Some cname)
             ∧ length (divisionNames p) = length (divisions p)
             ∧ has_divisions info = (0 <? length (divisions p))%nat.
Proof.
  intros Hcols Hcm Hdm. unfold has_columns in Hcols.
  rewrite !Forall_cons in Hcols.
  destruct Hcols as (H1 & H2 & H3 & H4 & H5 & H6 & _).
  destruct (text_cell_present _ _ H1) as [cname Hc].
  destruct (text_cell_present _ _ H2) as [ref Hr].
  destruct (text_cell_present _ _ H3) as [nm Hn].
  destruct (text_cell_present _ _ H4) as [d1 Hd1].
  destruct (text_cell_present _ _ H5) as [d2 Hd2].
  destruct (text_cell_present _ _ H6) as [d3 Hd3].
  exists cname, ref, nm. unfold convert_row_to_strapi_format.
  rewrite Hc, Hr, Hn, Hd1, Hd2, Hd3. simpl.
  destruct (blank_or_nan ref || blank_or_nan nm).
  { eexists _, _. split; [done |]. split; [done |]. split; [done |].
    split; [reflexivity |]. by split. }
  assert (Hcat : ∃ id found, map_category_to_id cname cm = Ok (id, found)).
  { unfold map_category_to_id.
    destruct (find_by_name cm cname) as [k|] eqn:Ef; [| by eexists _, _].
    destruct (find_by_name_numeric cm cname k Hcm Ef) as [n ->].
    by eexists _, _. }
  destruct Hcat as (id & found & Hcat). rewrite Hcat.
  destruct (division_loop_returns dm ([], []) [d1; d2; d3] Hdm)
    as [[ids missing] Hdiv].
  unfold parse_divisions. rewrite Hdiv.
  eexists _, _. split; [done |]. split; [done |]. split; [done |].
  split; [reflexivity |]. eexists. split; [reflexivity |]. simpl.
  split; [done |]. split; [done |]. split; [done |]. split; [done |].
  split; [by rewrite length_map | done].
Qed.

(** A sheet row whose category no table knows. *)
Definition unresolved_row : gmap string cell :=
  <["PRODUCTS' CATEGORY" := PStr "Stents"]>
  (<["Reference" := PStr "9.1"]>
  (<["PRODUCTS" := PStr "Coronary stent"]>
  (<["Division" := PStr "Injection"]>
  (<["Division.1" := PNaN]>
  (<["Division.2" := PNaN]> ∅))))).

Lemma convert_row_never_skips_unresolved_witness :
  has_columns unresolved_row
  ∧ numeric_keys [("60", "Needles")] ∧ numeric_keys [("48", "INJECTION")]
  ∧ ∃ cname ref nm o info,
      text_cell unresolved_row "PRODUCTS' CATEGORY" = Ok cname
      ∧ text_cell unresolved_row "Reference" = Ok ref
      ∧ text_cell unresolved_row "PRODUCTS" = Ok nm
      ∧ convert_row_to_strapi_format unresolved_row [("60", "Needles")]
          [("48", "INJECTION")] = Ok (o, info)
      ∧ if blank_or_nan ref || blank_or_nan nm
        then o = None ∧ info = ValidationInfo false false None [] None
        else ∃ p, o = Some p
               ∧ name p = nm ∧ referenceString p = ref
               ∧ map_category_to_id cname [("60", "Needles")]
                 = Ok (category p, has_category info)
               ∧ missing_category_id info
                 = (if has_category info then None else Some cname)
               ∧ length (divisionNames p) = length (divisions p)
               ∧ has_divisions info = (0 <? length (divisions p))%nat.
Proof.
  assert (Hc : has_columns unresolved_row).
  { unfold has_columns. repeat (apply Forall_cons; split; [by eexists |]).
    constructor. }
  assert (H1 : numeric_keys [("60", "Needles")]).
  { constructor; [exists 60; vm_compute; reflexivity | constructor]. }
  assert (H2 : numeric_keys [("48", "INJECTION")]).
  { constructor; [exists 48; vm_compute; reflexivity | constructor]. }
  split; [exact Hc |]. split; [exact H1 |]. split; [exact H2 |].
  exact (convert_row_never_skips_unresolved _ _ _ Hc H1 H2).
Defined.
End CustomRows.

Section BatchAccounting.
Import Py Http BatchUploader.












End BatchAccounting.

Section DivisionIds.
Import Py ExcelToJson.






(** [get_division_names] splits the ids, keeping their order: the names are
    those of the ids the map knows, the missing ids are the ids it does not
    know, and no id is lost or counted twice. *)
Theorem get_division_names_partition ids (dm : gmap string string) :
  (get_division_names ids dm).1 = omap (λ d, dm !! pretty d) ids
  ∧ (get_division_names ids dm).2
    = filter (λ d, dm !! pretty d = None) ids
  ∧ (length (get_division_names ids dm).1
     + length (get_division_names ids dm).2 = length ids)%nat
  ∧ ((get_division_names ids dm).2 = []
     ↔ Forall (λ d, is_Some (dm !! pretty d)) ids).
Proof.
  induction ids as [|d ids (IH1 & IH2 & IH3 & IH4)]; simpl.
  { split; [done |]. split; [done |]. split; [done |]. split; [| done].
    intros _. constructor. }
  destruct (get_division_names ids dm) as [names missing]. simpl in *.
  rewrite filter_cons.
  destruct (dm !! pretty d) as [nm|] eqn:E; simpl.
  - split; [by rewrite IH1 |].
    split; [done |]. split; [lia |]. rewrite IH4. split.
    + intros H. constructor; [by eexists | done].
    + intros H. apply Forall_cons_1 in H. tauto.
  - split; [done |].
    split; [by rewrite IH2 |]. split; [lia |]. split; [done |].
    intros H. apply Forall_cons_1 in H. destruct H as [[x Hx] _].
    rewrite E in Hx. discriminate Hx.
Qed.

End DivisionIds.
